(** * ClearView: the document minimizer of [app.py]

    A shallow embedding of the Streamlit script [app.py] and of the text
    replacer it imports, with the properties of the specification that
    concern them.

    Conventions.
    - A Python [str] or [bytes] value is a [string]; character-level
      algorithms work on its list of characters ([chars]).
    - A Python [int] is a [Z].  The script's [float] results (sizes in KB,
      percentages, minutes) are kept as exact rationals [Q]: the rounding
      to binary64 and the two-decimal display format [:.2f] are not part of
      the model.  The size metric is also given in binary64, to evaluate
      it on concrete sizes as Python does.
    - A Python [dict] whose order is observable (the abbreviation
      dictionary, the usage record) is an association list in insertion
      order.
    - The file system is a finite map from paths to contents.
    - An exception is an [outcome] other than [Ok]; the script runs in a
      state-and-exception monad over the file system and the rendered page. *)

From Stdlib Require Import ZArith QArith Qfield Lia List Ascii String Bool.
From Stdlib Require Import Sorting.Sorted Sorting.Permutation.
From Stdlib Require Import Uint63 PrimFloat.
From stdpp Require Import gmap strings.
Import ListNotations.

Local Open Scope Z_scope.

(* ================================================================== *)
(** * Part I: definitions *)
(* ================================================================== *)

(** ** Python values and primitives *)

Module Py.

Definition chars := list ascii.

Definition chars_of (s : string) : chars := list_ascii_of_string s.
Definition str_of (l : chars) : string := string_of_list_ascii l.

(** [len(s)] *)
Definition len (s : string) : Z := Z.of_nat (String.length s).

Definition code (c : ascii) : nat := nat_of_ascii c.

Definition in_range (lo hi : nat) (c : ascii) : bool :=
  (lo <=? code c)%nat && (code c <=? hi)%nat.

(** Whitespace as [str.split()] and [str.isspace] see it, for the code
    points below 256. *)
Definition is_space (c : ascii) : bool :=
  in_range 9 13 c || in_range 28 32 c || in_range 133 133 c
  || in_range 160 160 c.

(** Exceptions the script can meet. [ImportedError] stands for whatever an
    imported function raises. *)
Inductive exn : Type :=
| ZeroDivisionError
| FileNotFoundError (path : string)
| ImportedError (origin : string).

Inductive outcome (A : Type) : Type :=
| Ok (a : A)
| Raise (e : exn).
Arguments Ok {A} a.
Arguments Raise {A} e.

(** [a / b] on two ints: true division, which raises on a zero divisor. *)
Definition truediv (a b : Z) : outcome Q :=
  if b =? 0 then Raise ZeroDivisionError
  else Ok (inject_Z a / inject_Z b)%Q.

(** [sep.join(parts)] *)
Fixpoint join (sep : string) (parts : list string) : string :=
  match parts with
  | [] => ""
  | [p] => p
  | p :: ps => p ++ sep ++ join sep ps
  end%string.

(** Is [old] a prefix of [s]? *)
Fixpoint starts_with (old s : chars) : bool :=
  match old, s with
  | [], _ => true
  | _ :: _, [] => false
  | a :: old', b :: s' => Ascii.eqb a b && starts_with old' s'
  end.

(** [s.replace(old, new)] for a non-empty [old]: the occurrences of [old]
    are found from left to right and do not overlap.  [skip] counts the
    characters of the occurrence just replaced that are still to be
    dropped. *)
Fixpoint replace_chars (old new : chars) (skip : nat) (s : chars) : chars :=
  match s with
  | [] => []
  | c :: s' =>
      match skip with
      | S n => replace_chars old new n s'
      | O =>
          if starts_with old s
          then new ++ replace_chars old new (List.length old - 1) s'
          else c :: replace_chars old new 0 s'
      end
  end.

Definition replace (s old new : string) : string :=
  str_of (replace_chars (chars_of old) (chars_of new) 0 (chars_of s)).

(** [s.split()]: the maximal runs of non-whitespace characters.  [cur] is
    the run being read, in reverse. *)
Fixpoint split_chars (cur : chars) (s : chars) : list chars :=
  match s with
  | [] => match cur with [] => [] | _ => [rev cur] end
  | c :: s' =>
      if is_space c
      then match cur with
           | [] => split_chars [] s'
           | _ => rev cur :: split_chars [] s'
           end
      else split_chars (c :: cur) s'
  end.

Definition split (s : string) : list string :=
  map str_of (split_chars [] (chars_of s)).

(** The whitespace-separated words of a text as the specification counts
    them: one for each place where a character that is not whitespace
    begins the text or follows whitespace.  [in_word] tells whether the
    previous character belongs to a word. *)
Fixpoint word_starts (in_word : bool) (s : chars) : nat :=
  match s with
  | [] => 0
  | c :: s' =>
      if is_space c then word_starts false s'
      else ((if in_word then 0 else 1) + word_starts true s')%nat
  end.

Definition whitespace_words (s : string) : Z :=
  Z.of_nat (word_starts false (chars_of s)).

(** [sum(...)] over ints *)
Definition sum (l : list Z) : Z := fold_right Z.add 0 l.

(** [sorted(l, key=key, reverse=True)].  Python's sort is stable, also
    with [reverse=True]: elements with equal keys keep their order.  A
    stable sort has one possible result, given here by insertion. *)
Section Sorted.
Context {A : Type} (key : A -> Z).

Fixpoint insert_desc (x : A) (l : list A) : list A :=
  match l with
  | [] => [x]
  | y :: l' => if key y <=? key x then x :: l else y :: insert_desc x l'
  end.

Definition sorted_desc (l : list A) : list A :=
  fold_right insert_desc [] l.

(** [x] may come before [y] in a list sorted by descending key. *)
Definition desc (x y : A) : Prop := key y <= key x.
End Sorted.

End Py.

Import Py.

(** ** Shared data: the dictionary and the usage record *)

(** The abbreviation dictionary: fullForm -> abbreviation, in the order of
    the configuration file. *)
Definition dict := list (string * string).

(** One value of the usage record: [{"abbr": ..., "count": ...}]. *)
Record usage_entry : Type := { abbr : string; count : Z }.

(** The usage record: fullForm -> entry, in insertion order. *)
Definition usage := list (string * usage_entry).

(** ** The text replacer *)

Module Replacer.

(** Modelled from the spec: [modules/replacer.py] is not among the
    sources, so the text replacer follows section 4.2 of the
    specification: detection ignores case, a match lies on whole-word
    boundaries (the character before it and the character after it, when
    present, are not word characters), the longest fullForm that matches
    at a position wins, the text of a match is replaced by the configured
    abbreviation, matches do not overlap, pages are processed one by one
    and the counts are summed into one usage record. *)

Definition is_word_char (c : ascii) : bool :=
  in_range 48 57 c || in_range 65 90 c || in_range 97 122 c
  || in_range 95 95 c.

Definition lower (c : ascii) : ascii :=
  if in_range 65 90 c then ascii_of_nat (code c + 32) else c.

Definition eq_ci (a b : ascii) : bool := Ascii.eqb (lower a) (lower b).

(** [k] is a prefix of [s], ignoring case. *)
Fixpoint prefix_ci (k s : chars) : bool :=
  match k, s with
  | [], _ => true
  | _ :: _, [] => false
  | a :: k', b :: s' => eq_ci a b && prefix_ci k' s'
  end.

Definition boundary_before (prev : option ascii) : bool :=
  match prev with
  | None => true
  | Some p => negb (is_word_char p)
  end.

Definition boundary_after (rest : chars) : bool :=
  match rest with
  | [] => true
  | c :: _ => negb (is_word_char c)
  end.

Definition nonempty (k : chars) : bool :=
  match k with [] => false | _ :: _ => true end.

(** The fullForm [k] matches at the head of [s], where [prev] is the
    character before [s] in the page. *)
Definition matches_at (prev : option ascii) (k s : chars) : bool :=
  nonempty k && boundary_before prev && prefix_ci k s
  && boundary_after (skipn (List.length k) s).

(** The longest fullForm of the dictionary that matches here; among
    fullForms of one length, the first of the dictionary. *)
Fixpoint best_match (D : dict) (prev : option ascii) (s : chars)
  : option (string * string) :=
  match D with
  | [] => None
  | (k, a) :: D' =>
      let r := best_match D' prev s in
      if matches_at prev (chars_of k) s then
        match r with
        | Some (k', a') =>
            if (String.length k <? String.length k')%nat
            then Some (k', a') else Some (k, a)
        | None => Some (k, a)
        end
      else r
  end.

(** Count one more substitution of [k]. *)
Fixpoint record_use (k a : string) (u : usage) : usage :=
  match u with
  | [] => [(k, {| abbr := a; count := 1 |})]
  | (k', e) :: u' =>
      if String.eqb k k'
      then (k', {| abbr := abbr e; count := count e + 1 |}) :: u'
      else (k', e) :: record_use k a u'
  end.

(** One pass over a page, from left to right.  [skip] counts the
    characters of the match just replaced that are still to be dropped. *)
Fixpoint scan (D : dict) (prev : option ascii) (skip : nat) (s : chars)
  (u : usage) : chars * usage :=
  match s with
  | [] => ([], u)
  | c :: s' =>
      match skip with
      | S n => scan D (Some c) n s' u
      | O =>
          match best_match D prev s with
          | Some (k, a) =>
              let (out, u') :=
                scan D (Some c) (String.length k - 1) s' (record_use k a u) in
              (chars_of a ++ out, u')
          | None =>
              let (out, u') := scan D (Some c) 0 s' u in
              (c :: out, u')
          end
      end
  end.

Definition replace_page (D : dict) (p : string) (u : usage)
  : string * usage :=
  let (out, u') := scan D None 0 (chars_of p) u in (str_of out, u').

Fixpoint replace_pages (D : dict) (pages : list string) (u : usage)
  : list string * usage :=
  match pages with
  | [] => ([], u)
  | p :: ps =>
      let (p', u1) := replace_page D p u in
      let (ps', u2) := replace_pages D ps u1 in
      (p' :: ps', u2)
  end.

(** The Text Replacer: new pages and the document-level usage record. *)
Definition text_replacer (D : dict) (pages : list string)
  : list string * usage :=
  replace_pages D pages [].

(** *** Conditions on a dictionary *)

(** The condition the specification names: no abbreviation is a fullForm
    key. *)
Definition abbreviations_not_keys (D : dict) : bool :=
  forallb (fun e => negb (existsb (fun e' => String.eqb (snd e) (fst e')) D))
          D.

(** [a] matches somewhere inside [k] as a whole word, ignoring case. *)
Fixpoint occurs_in (prev : option ascii) (a k : chars) : bool :=
  match k with
  | [] => false
  | c :: k' => matches_at prev a k || occurs_in (Some c) a k'
  end.

(** A fullForm is a phrase: it begins and ends with a word character. *)
Definition phrase (k : chars) : bool :=
  match k with
  | [] => false
  | c :: _ => is_word_char c && is_word_char (List.last k c)
  end.

(** An abbreviation is a single word. *)
Definition single_word (a : chars) : bool :=
  nonempty a && forallb is_word_char a.

(** Every fullForm is a phrase, every abbreviation is a single word, and
    no abbreviation occurs as a whole word inside a fullForm. *)
Definition separated (D : dict) : bool :=
  forallb (fun e => phrase (chars_of (fst e))
                    && single_word (chars_of (snd e))) D
  && forallb (fun e =>
       forallb (fun e' =>
         negb (occurs_in None (chars_of (snd e)) (chars_of (fst e')))) D) D.

(** *** Notions used to state the properties of a pass *)

Definition is_none {A} (o : option A) : bool :=
  match o with None => true | Some _ => false end.

(** No fullForm of [D] matches anywhere in [t], the text after [prev]. *)
Fixpoint no_match_in (D : dict) (prev : option ascii) (t : chars) : bool :=
  match t with
  | [] => true
  | c :: t' => is_none (best_match D prev t) && no_match_in D (Some c) t'
  end.

(** The character before what is left of [s] when [n] characters have
    been dropped. *)
Fixpoint prev_after (prev : option ascii) (n : nat) (s : chars)
  : option ascii :=
  match n, s with
  | S n', c :: s' => prev_after (Some c) n' s'
  | _, _ => prev
  end.

(** The text a pass writes, without the usage record. *)
Definition scan_out (D : dict) (prev : option ascii) (s : chars) : chars :=
  fst (scan D prev 0 s []).

End Replacer.

(** ** The script [app.py] *)

Module App.

(** *** The rendered page *)

(** A value shown by [st.metric]: a number formatted with [:.2f], the same
    followed by a percent sign, or an int. *)
Inductive shown : Type :=
| Fixed2 (q : Q)
| Fixed2Percent (q : Q)
| Int (z : Z).

(** A matplotlib figure as far as the script fills it. *)
Inductive chart : Type :=
| Bar (labels : list string) (heights : list Q) (ylabel : string)
| BarH (labels : list string) (widths : list Z) (xlabel : string).

(** One row of the abbreviation table. *)
Record table_row : Type :=
  { full_form : string; abbreviation : string; replacement_count : Z }.

(** The Streamlit elements the script renders inside [if uploaded_file:],
    in the order of the calls.  Labels are given without their
    pictographs; layout calls ([st.columns], [st.spinner]) render nothing
    of their own. *)
Inductive widget : Type :=
| St_markdown (body : string)
| St_subheader (title : string)
| St_text_area (label body : string)
| St_metric (label : string) (value : shown)
| St_pyplot (fig : chart)
| St_table (rows : list table_row)
| St_info (body : string)
| St_download_button (label data file_name mime : string).

(** *** The state of a run and its monad *)

Record world : Type :=
  { files : gmap string string;   (* the disk: path -> contents *)
    page : list widget }.         (* what has been rendered so far *)

Definition M (A : Type) : Type := world -> world * outcome A.

Definition ret {A} (a : A) : M A := fun w => (w, Ok a).

Definition bind {A B} (m : M A) (k : A -> M B) : M B :=
  fun w =>
    match m w with
    | (w', Ok a) => k a w'
    | (w', Raise e) => (w', Raise e)
    end.

Notation "x <- m ;; k" := (bind m (fun x => k))
  (at level 100, m at next level, right associativity).
Notation "m ;;; k" := (bind m (fun _ => k))
  (at level 100, right associativity).

(** An [outcome] computed without touching the state. *)
Definition lift {A} (r : outcome A) : M A := fun w => (w, r).

Definition emit (x : widget) : M unit :=
  fun w => ({| files := files w; page := page w ++ [x] |}, Ok tt).

Fixpoint emit_all (l : list widget) : M unit :=
  match l with
  | [] => ret tt
  | x :: l' => emit x ;;; emit_all l'
  end.

(** [open(path, "rb").read()] *)
Definition read_file (path : string) : M string :=
  fun w =>
    match files w !! path with
    | Some data => (w, Ok data)
    | None => (w, Raise (FileNotFoundError path))
    end.

Definition write_file (path data : string) : M unit :=
  fun w => ({| files := <[path := data]> (files w); page := page w |}, Ok tt).

(** [os.path.getsize(path)] *)
Definition getsize (path : string) : M Z :=
  data <- read_file path ;; ret (len data).

(** [tempfile.NamedTemporaryFile(delete=False, suffix=suffix)], written
    with [data] and closed: the file stays on disk when the [with] block
    ends.  [stem] is the directory and the random name the operating
    system picks. *)
Definition named_temporary_file (stem suffix data : string) : M string :=
  let name := (stem ++ suffix)%string in
  write_file name data ;;; ret name.

(** *** The imported functions *)

(** What the script imports from [modules/], which is not among the
    sources, as functions of the contents of the files they read; and the
    summarizer of [app.py], on which nothing below depends. *)
Class Imports : Type :=
  { extract_pages : string -> outcome (list string);
    parse_abbreviations : string -> outcome dict;
    replace_with_abbreviations : list string -> dict -> list string;
    render_pdf : string -> dict -> bool -> outcome (string * usage);
    lightweight_summarizer : string -> nat -> string }.

Section Script.
Context `{Imports}.

(** Modelled from the spec: [modules/extractor.py] is missing; it reads
    the PDF at [path] and returns one text per page, or fails. *)
Definition extract_text_from_pdf (path : string) : M (list string) :=
  data <- read_file path ;; lift (extract_pages data).

(** Modelled from the spec: [load_abbreviations] of
    [modules/replacer.py] is missing; it reads the resource and has no
    other effect. *)
Definition load_abbreviations (path : string) : M dict :=
  data <- read_file path ;; lift (parse_abbreviations data).

(** Modelled from the spec: [modules/abbreviator.py] is missing; it
    reads the source PDF, writes the new PDF to [output_path], does not
    change the source file, and returns the usage record of what it
    wrote. *)
Definition abbreviate_pdf (input_path output_path : string) (abbreviations : dict)
  (include_reference_pages : bool) : M usage :=
  data <- read_file input_path ;;
  r <- lift (render_pdf data abbreviations include_reference_pages) ;;
  write_file output_path (fst r) ;;;
  ret (snd r).

(** *** The computations of the script *)

(** [input_path.replace(".pdf", "_minimized.pdf")] *)
Definition output_path_of (input_path : string) : string :=
  replace input_path ".pdf" "_minimized.pdf".

(** [(original_size - minimized_size) / original_size * 100
     if original_size else 0] *)
Definition percent_reduction (original_size minimized_size : Z)
  : outcome Q :=
  if negb (original_size =? 0) then
    match truediv (original_size - minimized_size) original_size with
    | Ok q => Ok (q * 100)%Q
    | Raise e => Raise e
    end
  else Ok 0%Q.

Definition kb (size : Z) : Q := (inject_Z size / 1024)%Q.

(** [sum(v["count"] for v in used_abbr.values())] *)
Definition total_replacements (used_abbr : usage) : Z :=
  sum (map (fun x => count (snd x)) used_abbr).

(** [sorted(used_abbr.items(), key=lambda x: x[1]["count"],
     reverse=True)[:10]] *)
Definition sorted_abbr (used_abbr : usage) : usage :=
  firstn 10 (sorted_desc (fun x => count (snd x)) used_abbr).

(** The list comprehension over [used_abbr.items()]. *)
Definition table_data (used_abbr : usage) : list table_row :=
  map (fun x => {| full_form := fst x;
                   abbreviation := abbr (snd x);
                   replacement_count := count (snd x) |}) used_abbr.

(** The order the specification asks of the entries shown, on pairs of
    a fullForm and its count: descending count, ties by ascending
    fullForm. *)
Definition spec_before (x y : string * Z) : bool :=
  (snd y <? snd x) || ((snd x =? snd y) && String.leb (fst x) (fst y)).

Fixpoint in_spec_order (l : list (string * Z)) : bool :=
  match l with
  | [] => true
  | x :: l' => forallb (spec_before x) l' && in_spec_order l'
  end.

(** [sum(len(p.split()) for p in pages)] *)
Definition words (pages : list string) : Z :=
  sum (map (fun p => Z.of_nat (List.length (split p))) pages).

Definition minutes (w : Z) : Q := (inject_Z w / 200)%Q.

Definition nl : string := String "010" "".

(** *** The sections of the page *)

Definition summary_section (original_text_pages : list string)
  : list widget :=
  let full_text := join " " original_text_pages in
  let num_pages := List.length original_text_pages in
  let summary :=
    if (num_pages =? 1)%nat
    then lightweight_summarizer full_text 6
    else lightweight_summarizer full_text 15 in
  [ St_markdown "## Smart PDF Summary";
    St_text_area "Document Summary" summary ].

Definition text_comparison (original_text_pages replaced_pages : list string)
  : list widget :=
  [ St_subheader "Original Text";
    St_text_area "Before" (join (nl ++ nl) (firstn 2 original_text_pages));
    St_subheader "Minimized Text";
    St_text_area "After" (join (nl ++ nl) (firstn 2 replaced_pages));
    St_markdown "---" ].

Definition metrics (original_size minimized_size : Z) (percent : Q)
  (used_abbr : usage) : list widget :=
  [ St_subheader "Compression Summary";
    St_metric "Original Size (KB)" (Fixed2 (kb original_size));
    St_metric "Minimized Size (KB)" (Fixed2 (kb minimized_size));
    St_metric "Reduction (%)" (Fixed2Percent percent);
    St_metric "Total Replacements" (Int (total_replacements used_abbr)) ].

Definition compression_graph (original_size minimized_size : Z)
  : list widget :=
  [ St_subheader "Compression Effectiveness";
    St_pyplot (Bar ["Original"; "Minimized"]
                   [kb original_size; kb minimized_size]
                   "File Size (KB)") ].

Definition top_abbreviations (used_abbr : usage) : list widget :=
  match used_abbr with
  | [] => []
  | _ :: _ =>
      let top := sorted_abbr used_abbr in
      let labels := map fst top in
      let counts := map (fun x => count (snd x)) top in
      [ St_subheader "Top Abbreviations Used";
        St_pyplot (BarH labels counts "Replacement Count") ]
  end.

Definition reading_time (original_text_pages replaced_pages : list string)
  : list widget :=
  let words_original := words original_text_pages in
  let words_minimized := words replaced_pages in
  [ St_subheader "Reading Time Estimation";
    St_metric "Original Time (min)" (Fixed2 (minutes words_original));
    St_metric "Minimized Time (min)" (Fixed2 (minutes words_minimized));
    St_metric "Time Saved (min)"
              (Fixed2 (minutes (words_original - words_minimized)));
    St_markdown "---" ].

Definition abbreviation_table (used_abbr : usage) : list widget :=
  St_subheader "Replaced Abbreviations"
  :: match used_abbr with
     | _ :: _ => [ St_table (table_data used_abbr) ]
     | [] => [ St_info "No abbreviations were used in this document." ]
     end.

(** The messages the page carries: the bodies of its [st.info]
    elements (the script calls neither [st.warning] nor [st.error] and
    does not log). *)
Definition notices (pg : list widget) : list string :=
  flat_map (fun x => match x with St_info body => [body] | _ => [] end) pg.

(** *** One run: the body of [if uploaded_file:] *)

(** [uploaded] is what [uploaded_file.read()] returns, [tmp_stem] the
    name the operating system gives the temporary file, without its
    suffix. *)
Definition run (uploaded : string) (include_reference_pages : bool)
  (tmp_stem : string) : M unit :=
  input_path <- named_temporary_file tmp_stem ".pdf" uploaded ;;
  let output_path := output_path_of input_path in
  original_text_pages <- extract_text_from_pdf input_path ;;
  emit_all (summary_section original_text_pages) ;;;
  abbreviations <- load_abbreviations "config/abbreviations.json" ;;
  let replaced_pages :=
    replace_with_abbreviations original_text_pages abbreviations in
  used_abbr <- abbreviate_pdf input_path output_path abbreviations
                              include_reference_pages ;;
  original_size <- getsize input_path ;;
  minimized_size <- getsize output_path ;;
  percent <- lift (percent_reduction original_size minimized_size) ;;
  emit_all (text_comparison original_text_pages replaced_pages) ;;;
  emit_all (metrics original_size minimized_size percent used_abbr) ;;;
  emit_all (compression_graph original_size minimized_size) ;;;
  emit_all (top_abbreviations used_abbr) ;;;
  emit_all (reading_time original_text_pages replaced_pages) ;;;
  emit_all (abbreviation_table used_abbr) ;;;
  f <- read_file output_path ;;
  emit (St_download_button "Download Minimized PDF" f
                           "minimized_output.pdf" "application/pdf").

(** The page of a run that ends normally. *)
Definition rendered (pages : list string) (D : dict)
  (used : usage) (original_size minimized_size : Z) (percent : Q)
  (out : string) : list widget :=
  let replaced := replace_with_abbreviations pages D in
  summary_section pages
  ++ text_comparison pages replaced
  ++ metrics original_size minimized_size percent used
  ++ compression_graph original_size minimized_size
  ++ top_abbreviations used
  ++ reading_time pages replaced
  ++ abbreviation_table used
  ++ [ St_download_button "Download Minimized PDF" out
                          "minimized_output.pdf" "application/pdf" ].

End Script.

(** *** The size metric in binary64 *)

(** [float(z)]; exact for an int of absolute value below 2^53, which
    covers the size of any file. *)
Definition float_of_int (z : Z) : float :=
  match z with
  | Z0 => 0%float
  | Zpos _ => of_uint63 (Uint63.of_Z z)
  | Zneg p => (- of_uint63 (Uint63.of_Z (Zpos p)))%float
  end.

(** [a / b] on two ints, in binary64. *)
Definition truediv_binary64 (a b : Z) : outcome float :=
  if b =? 0 then Raise ZeroDivisionError
  else Ok (float_of_int a / float_of_int b)%float.

(** [percent_reduction] with the two float operations of the script. *)
Definition percent_reduction_binary64 (original_size minimized_size : Z)
  : outcome float :=
  if negb (original_size =? 0) then
    match truediv_binary64 (original_size - minimized_size) original_size with
    | Ok x => Ok (x * 100)%float
    | Raise e => Raise e
    end
  else Ok 0%float.

(** *** Notions used to state the properties of a run *)

(** A property of the disk that every step of a computation keeps. *)
Definition preserves {A} (P : world -> Prop) (m : M A) : Prop :=
  forall w, P w -> P (fst (m w)).

(** The file at [path] holds [data]. *)
Definition holds (path data : string) (w : world) : Prop :=
  files w !! path = Some data.

(** *** Concrete imports, for examples *)

(** An extractor that reads the upload as one page of text, a loader that
    finds the dictionary [{"cat": "C"}], the text replacer of the
    specification, a rewriter that writes a fixed document and reports
    [pdf_usage], and a summarizer that returns its text. *)
Definition example_imports (pdf_usage : usage) : Imports :=
  {| extract_pages := fun data => Ok [data];
     parse_abbreviations := fun _ => Ok [("cat", "C")]%string;
     replace_with_abbreviations :=
       fun pages D => fst (Replacer.text_replacer D pages);
     render_pdf := fun _ _ _ => Ok ("%PDF-minimized"%string, pdf_usage);
     lightweight_summarizer := fun text _ => text |}.

(** The same with an extractor that fails. *)
Definition failing_imports : Imports :=
  {| extract_pages := fun _ => Raise (ImportedError "extractor");
     parse_abbreviations := fun _ => Ok [("cat", "C")]%string;
     replace_with_abbreviations :=
       fun pages D => fst (Replacer.text_replacer D pages);
     render_pdf := fun _ _ _ => Ok ("%PDF-minimized"%string, []);
     lightweight_summarizer := fun text _ => text |}.

(** A disk that holds the configuration and an empty page. *)
Definition example_world : world :=
  {| files := {[ "config/abbreviations.json"%string := "cat=C"%string ]};
     page := [] |}.

End App.

(** ** The summarizer of [app.py] *)

Module Summarizer.

(** The characters of [\w] in a [str] pattern, for the code points below
    256: letters, digits and the underscore, with the Latin-1 letters and
    numeric signs. *)
Definition is_w (c : ascii) : bool :=
  in_range 48 57 c || in_range 65 90 c || in_range 95 95 c
  || in_range 97 122 c || in_range 170 170 c || in_range 178 179 c
  || in_range 181 181 c || in_range 185 186 c || in_range 188 190 c
  || in_range 192 214 c || in_range 216 246 c || in_range 248 255 c.

(** [str.lower] on one character, for the code points below 256. *)
Definition lower_char (c : ascii) : ascii :=
  if in_range 65 90 c || in_range 192 214 c || in_range 216 222 c
  then ascii_of_nat (code c + 32) else c.

Definition lower (s : chars) : chars := map lower_char s.

(** [re.findall(r'\w+', s)]: the maximal runs of word characters.  [cur]
    is the run being read, in reverse. *)
Fixpoint findall_w (cur : chars) (s : chars) : list chars :=
  match s with
  | [] => match cur with [] => [] | _ => [rev cur] end
  | c :: s' =>
      if is_w c then findall_w (c :: cur) s'
      else match cur with
           | [] => findall_w [] s'
           | _ => rev cur :: findall_w [] s'
           end
  end.

(** The characters of the lookbehind [(?<=[.!?])]. *)
Definition ends_sentence (c : ascii) : bool :=
  Ascii.eqb c "." || Ascii.eqb c "!" || Ascii.eqb c "?".

Definition is_blank (c : ascii) : bool := Ascii.eqb c " ".

(** Where the reading of [re.split] stands: just after one of [.!?],
    inside a separator, or elsewhere. *)
Inductive place : Type := AfterMark | InSeparator | Elsewhere.

(** [re.split(r'(?<=[.!?]) +', s)]: a separator is a run of spaces, as
    long as possible, that follows one of [.!?].  [cur] is the piece
    being read, in reverse. *)
Fixpoint split_sentences (st : place) (cur : chars) (s : chars)
  : list chars :=
  match s with
  | [] => [rev cur]
  | c :: s' =>
      if is_blank c then
        match st with
        | AfterMark => rev cur :: split_sentences InSeparator [] s'
        | InSeparator => split_sentences InSeparator cur s'
        | Elsewhere => split_sentences Elsewhere (c :: cur) s'
        end
      else if ends_sentence c then split_sentences AfterMark (c :: cur) s'
      else split_sentences Elsewhere (c :: cur) s'
  end.

(** The sentences of a text. *)
Definition sentences_of (text : string) : list string :=
  map str_of (split_sentences Elsewhere [] (chars_of text)).

(** The lower-case words of a text. *)
Definition words_of (text : string) : list string :=
  map str_of (findall_w [] (lower (chars_of text))).

(** [Counter(words)[w]]: how often [w] occurs, 0 when it does not. *)
Fixpoint freq (words : list string) (w : string) : Z :=
  match words with
  | [] => 0
  | w' :: words' => (if String.eqb w w' then 1 else 0) + freq words' w
  end.

(** [sum(freq[w] for w in re.findall(r'\w+', s.lower()))] *)
Definition score (words : list string) (s : string) : Z :=
  sum (map (freq words) (words_of s)).

(** [d[k] = v] on a dict in insertion order: a key that is present keeps
    its place. *)
Fixpoint dict_set (k : string) (v : Z) (d : list (string * Z))
  : list (string * Z) :=
  match d with
  | [] => [(k, v)]
  | (k', v') :: d' =>
      if String.eqb k k' then (k', v) :: d' else (k', v') :: dict_set k v d'
  end.

(** [d.get(k)] for a key of the dict; the summarizer asks for no other. *)
Fixpoint dict_get (d : list (string * Z)) (k : string) : Z :=
  match d with
  | [] => 0
  | (k', v) :: d' => if String.eqb k k' then v else dict_get d' k
  end.

(** The loop [for s in sentences: scores[s] = ...]. *)
Definition scores_of (words : list string) (sentences : list string)
  : list (string * Z) :=
  fold_left (fun d s => dict_set s (score words s) d) sentences [].

(** [sorted(scores, key=scores.get, reverse=True)[:num_sentences]] *)
Definition top_sentences (scores : list (string * Z)) (num_sentences : nat)
  : list string :=
  firstn num_sentences (sorted_desc (dict_get scores) (map fst scores)).

(** [s in top_sentences] *)
Definition among (top : list string) (s : string) : bool :=
  existsb (String.eqb s) top.

(** [lightweight_summarizer(text, num_sentences)], for a count of
    sentences that is not negative (the script passes 6 and 15). *)
Definition lightweight_summarizer (text : string) (num_sentences : nat)
  : string :=
  let text := replace text App.nl " " in
  let sentences := sentences_of text in
  if (List.length sentences <=? num_sentences)%nat then text
  else
    let words := words_of text in
    let scores := scores_of words sentences in
    let top := top_sentences scores num_sentences in
    join " " (List.filter (among top) sentences).

End Summarizer.

(** ** Notions used to state further properties *)

(** The download buttons of a page. *)
Definition download_buttons (pg : list App.widget) : list App.widget :=
  List.filter (fun x => match x with
                        | App.St_download_button _ _ _ _ => true
                        | _ => false
                        end) pg.

(** [sep.join(parts)] on lists of characters. *)
Fixpoint join_chars (sep : chars) (parts : list chars) : chars :=
  match parts with
  | [] => []
  | [p] => p
  | p :: ps => p ++ sep ++ join_chars sep ps
  end.

(** Every entry of the dict holds the value [f] gives its key. *)
Definition holds_values (f : string -> Z) (d : list (string * Z)) : Prop :=
  forall k v, In (k, v) d -> v = f k.

(** The piece ends with one of [.!?]. *)
Definition ends_with_mark (l : chars) : bool :=
  match rev l with
  | m :: _ => Summarizer.ends_sentence m
  | [] => false
  end.

Definition begins_with_blank (l : chars) : bool :=
  match l with
  | c :: _ => Summarizer.is_blank c
  | [] => false
  end.

(** No two spaces follow each other in [s]. *)
Fixpoint single_spaced (s : chars) : bool :=
  match s with
  | a :: (b :: _) as s' =>
      negb (Summarizer.is_blank a && Summarizer.is_blank b) && single_spaced s'
  | _ => true
  end.

(** ** Whole-word substitution, as the specification words it *)

(** There is no character here, or one that is no word character. *)
Definition no_word_char (o : option ascii) : Prop :=
  match o with
  | None => True
  | Some c => Replacer.is_word_char c = false
  end.

Definition first_char (s : chars) : option ascii :=
  match s with
  | [] => None
  | c :: _ => Some c
  end.

(** [m] is the fullForm [k], up to case. *)
Definition same_ignoring_case (k m : chars) : Prop :=
  Forall2 (fun x y => Replacer.lower x = Replacer.lower y) k m.

(** [out] is the page [s] in which [n] stretches of text, read from left
    to right, have been replaced: each stretch is a fullForm of [D] up to
    case, is replaced by the abbreviation of that fullForm, has no word
    character just before it and none just after it; the rest of the page
    is copied.  [prev] is the character before [s]. *)
Inductive page_rewrite (D : dict)
  : option ascii -> chars -> chars -> nat -> Prop :=
| rewrite_end (prev : option ascii) : page_rewrite D prev [] [] 0
| rewrite_copy (prev : option ascii) (c : ascii) (s out : chars) (n : nat) :
    page_rewrite D (Some c) s out n ->
    page_rewrite D prev (c :: s) (c :: out) n
| rewrite_subst (prev : option ascii) (k a : string) (m s out : chars)
    (n : nat) :
    In (k, a) D ->
    m <> [] ->
    same_ignoring_case (chars_of k) m ->
    no_word_char prev ->
    no_word_char (first_char s) ->
    page_rewrite D (Replacer.prev_after prev (List.length m) m) s out n ->
    page_rewrite D prev (m ++ s) (chars_of a ++ out) (S n).

(** The same page by page, the numbers of replacements added up. *)
Inductive document_rewrite (D : dict)
  : list string -> list string -> nat -> Prop :=
| document_end : document_rewrite D [] [] 0
| document_page (p out : string) (ps outs : list string) (n ns : nat) :
    page_rewrite D None (chars_of p) (chars_of out) n ->
    document_rewrite D ps outs ns ->
    document_rewrite D (p :: ps) (out :: outs) (n + ns).

(** ** The reference pages *)

(** One line of a reference page: fullForm, abbreviation, count. *)
Definition triple_of (x : string * usage_entry) : string * string * Z :=
  (fst x, abbr (snd x), count (snd x)).

Definition triple_before (x y : string * string * Z) : bool :=
  App.spec_before (fst (fst x), snd x) (fst (fst y), snd y).

Fixpoint insert_triple (x : string * string * Z)
  (l : list (string * string * Z)) : list (string * string * Z) :=
  match l with
  | [] => [x]
  | y :: l' => if triple_before x y then x :: l else y :: insert_triple x l'
  end.

(** The order of the specification on triples, as [in_spec_order] reads
    it on pairs. *)
Definition triples_in_order (l : list (string * string * Z)) : bool :=
  App.in_spec_order (map (fun t => (fst (fst t), snd t)) l).

(** Modelled from the spec: the reference pages are written by
    [modules/abbreviator.py], which is missing.  When they are asked for,
    they list the triples of the usage record that is returned, sorted by
    descending count, triples of equal count by ascending fullForm;
    otherwise there are none. *)
Definition reference_page_triples (include_reference_pages : bool)
  (used_abbr : usage) : list (string * string * Z) :=
  if include_reference_pages
  then fold_right insert_triple [] (map triple_of used_abbr)
  else [].

Import Replacer App.

(* ================================================================== *)
(** * Part II: properties *)
(* ================================================================== *)

(** ** Size metric *)

Lemma truediv_nonzero (a b : Z) :
  b <> 0 -> truediv a b = Ok (inject_Z a / inject_Z b)%Q.
Proof.
  intros Hb. unfold truediv.
  destruct (Z.eqb_spec b 0) as [E | _]; [contradiction | reflexivity].
Qed.

Lemma percent_reduction_value (o m : Z) :
  percent_reduction o m
  = Ok (if o =? 0 then 0 else inject_Z (o - m) / inject_Z o * 100)%Q.
Proof.
  unfold percent_reduction.
  destruct (Z.eqb_spec o 0) as [E | N]; simpl; [reflexivity |].
  rewrite truediv_nonzero by exact N. reflexivity.
Qed.

Lemma ratio_negative (o d : Z) :
  0 < o -> d < 0 -> (inject_Z d / inject_Z o * 100 < 0)%Q.
Proof.
  intros Ho Hd.
  destruct o as [| p | p]; try lia.
  destruct d as [| n | n]; try lia.
  unfold Qlt, Qdiv, Qmult, Qinv, inject_Z; simpl. lia.
Qed.

(** C4: the percent reduction is [(original - minimized) / original * 100]
    for a non-zero original size, 40 for 1000 and 600 bytes (as a
    rational, and exactly 40.0 in binary64), and 0 for an original size
    of 0; the division never raises [ZeroDivisionError]. *)
Theorem C4_percent_reduction :
  (forall o m : Z,
      percent_reduction o m
      = Ok (if o =? 0 then 0 else inject_Z (o - m) / inject_Z o * 100)%Q)
  /\ (exists q, percent_reduction 1000 600 = Ok q /\ (q == 40)%Q)
  /\ percent_reduction_binary64 1000 600 = Ok 40%float
  /\ (forall m : Z, percent_reduction 0 m = Ok 0%Q)
  /\ (forall m : Z, percent_reduction_binary64 0 m = Ok 0%float)
  /\ (forall o m : Z, percent_reduction o m <> Raise ZeroDivisionError)
  /\ (forall o m : Z,
        percent_reduction_binary64 o m <> Raise ZeroDivisionError).
Proof.
  split; [exact percent_reduction_value |].
  split; [eexists; split; [reflexivity | reflexivity] |].
  split; [vm_compute; reflexivity |].
  split; [intros m; reflexivity |].
  split; [intros m; reflexivity |].
  split.
  - intros o m. rewrite percent_reduction_value. discriminate.
  - intros o m. unfold percent_reduction_binary64, truediv_binary64.
    destruct (o =? 0); simpl; discriminate.
Qed.

(** C10: the percent reduction is not clamped at zero.  When the
    minimized file is larger than a non-empty original, the value is
    [(original - minimized) / original * 100], which is negative; and for
    a given original size it goes below every bound as the minimized size
    grows. *)
Theorem C10_negative_reduction (o m : Z) (Ho : 0 < o) (Hm : o < m) :
  (exists q, percent_reduction o m = Ok q
             /\ (q < 0)%Q
             /\ (q == inject_Z (o - m) / inject_Z o * 100)%Q)
  /\ (forall bound : Q, exists m' q',
         o < m' /\ percent_reduction o m' = Ok q' /\ (q' < bound)%Q).
Proof.
  split.
  - exists (inject_Z (o - m) / inject_Z o * 100)%Q.
    rewrite percent_reduction_value.
    destruct (Z.eqb_spec o 0) as [E | _]; [lia |].
    split; [reflexivity |]. split; [| reflexivity].
    apply ratio_negative; lia.
  - intros [n d].
    set (k := Z.abs n + 1).
    exists (o + o * k), (inject_Z (o - (o + o * k)) / inject_Z o * 100)%Q.
    assert (Hk : 0 < k) by (unfold k; lia).
    split; [nia |].
    rewrite percent_reduction_value.
    destruct (Z.eqb_spec o 0) as [E | _]; [lia |].
    split; [reflexivity |].
    replace (o - (o + o * k)) with (- k * o) by ring.
    destruct o as [| p | p]; try lia.
    unfold Qlt, Qdiv, Qmult, Qinv, inject_Z; simpl.
    unfold k. nia.
Qed.

Lemma C10_negative_reduction_witness :
  exists q, percent_reduction 1000 1500 = Ok q /\ (q < 0)%Q.
Proof.
  destruct (C10_negative_reduction 1000 1500 ltac:(lia) ltac:(lia))
    as [[q [E [L _]]] _].
  exists q. split; [exact E | exact L].
Defined.

(** The metric in binary64 where the minimized file is the larger one. *)
Example percent_reduction_binary64_negative :
  percent_reduction_binary64 1000 1500 = Ok (-50)%float
  /\ percent_reduction_binary64 3 4 = Ok (-0x1.0aaaaaaaaaaaap+5)%float.
Proof. vm_compute. split; reflexivity. Qed.

(** ** The text replacer on the examples of the specification *)

(** C1: with "data structure" and "data" both in the dictionary, the
    longer fullForm wins: the page becomes "the DS is large" and the usage
    record has the single entry "data structure" with count 1, whatever
    the order of the two entries in the dictionary. *)
Theorem C1_longest_match_first :
  text_replacer [("data structure", "DS"); ("data", "D")]%string
                ["the data structure is large"%string]
  = (["the DS is large"%string],
     [("data structure"%string, {| abbr := "DS"; count := 1 |})])
  /\ text_replacer [("data", "D"); ("data structure", "DS")]%string
                   ["the data structure is large"%string]
     = (["the DS is large"%string],
        [("data structure"%string, {| abbr := "DS"; count := 1 |})]).
Proof. split; vm_compute; reflexivity. Qed.

(** ** The output path *)

Lemma replace_chars_skip (old new : chars) (n : nat) (s : chars) :
  replace_chars old new n s = replace_chars old new 0 (skipn n s).
Proof.
  revert n. induction s as [| c s IH]; intros n.
  - destruct n; reflexivity.
  - destruct n as [| n]; [reflexivity |]. simpl skipn.
    change (replace_chars old new (S n) (c :: s))
      with (replace_chars old new n s).
    apply IH.
Qed.

(** A path component without a dot is copied as it is. *)
Lemma replace_chars_plain (old' new s rest : chars) :
  Forall (fun c => c <> "."%char) s ->
  replace_chars ("."%char :: old') new 0 (s ++ rest)
  = s ++ replace_chars ("."%char :: old') new 0 rest.
Proof.
  induction 1 as [| c s Hc _ IH]; [reflexivity |].
  simpl app. cbn [replace_chars starts_with].
  destruct (Ascii.eqb_spec "."%char c) as [E | _]; [congruence |].
  simpl. f_equal. exact IH.
Qed.

Lemma chars_of_append (a b : string) :
  chars_of (a ++ b) = (chars_of a ++ chars_of b)%list.
Proof.
  unfold chars_of. induction a as [| c a IH]; [reflexivity |].
  simpl. rewrite IH. reflexivity.
Qed.

Lemma str_of_app (a b : chars) :
  str_of (a ++ b) = (str_of a ++ str_of b)%string.
Proof.
  unfold str_of. induction a as [| c a IH]; [reflexivity |].
  simpl. rewrite IH. reflexivity.
Qed.

Lemma str_of_chars_of (s : string) : str_of (chars_of s) = s.
Proof. apply string_of_list_ascii_of_string. Qed.

Lemma chars_of_str_of (l : chars) : chars_of (str_of l) = l.
Proof. apply list_ascii_of_string_of_list_ascii. Qed.

(** When the only dot of the path is the one of the extension, the
    marker goes before the extension. *)
Lemma output_path_of_plain (stem : string) :
  Forall (fun c => c <> "."%char) (chars_of stem) ->
  output_path_of (stem ++ ".pdf") = (stem ++ "_minimized.pdf")%string.
Proof.
  intros Hs. unfold output_path_of, replace.
  rewrite chars_of_append.
  change (chars_of ".pdf") with ("."%char :: chars_of "pdf").
  rewrite replace_chars_plain by exact Hs.
  rewrite str_of_app, str_of_chars_of. reflexivity.
Qed.

(** C8: [str.replace] rewrites every ".pdf" of the path, not only the
    extension: for a temporary directory whose name contains ".pdf" the
    marker is also inserted in the directory part. *)
Theorem C8_marker_in_directory :
  output_path_of "/tmp/scans.pdf/tmpk3x9q2_a.pdf"
  = "/tmp/scans_minimized.pdf/tmpk3x9q2_a_minimized.pdf"%string
  /\ output_path_of "/tmp/scans.pdf/tmpk3x9q2_a.pdf"
     <> "/tmp/scans.pdf/tmpk3x9q2_a_minimized.pdf"%string.
Proof. split; [vm_compute; reflexivity | vm_compute; discriminate]. Qed.

(** ** Reading time *)

Lemma split_chars_length (cur s : chars) :
  List.length (split_chars cur s)
  = ((if nonempty cur then 1 else 0) + word_starts (nonempty cur) s)%nat.
Proof.
  revert cur. induction s as [| c s IH]; intros cur.
  - destruct cur; reflexivity.
  - cbn [split_chars word_starts]. destruct (is_space c).
    + destruct cur as [| d cur]; cbn [nonempty List.length].
      * rewrite IH. reflexivity.
      * rewrite IH. reflexivity.
    + rewrite IH. destruct cur; reflexivity.
Qed.

(** [len(p.split())] is the number of whitespace-separated words. *)
Lemma split_length (p : string) :
  Z.of_nat (List.length (split p)) = whitespace_words p.
Proof.
  unfold split, whitespace_words.
  rewrite length_map, split_chars_length. reflexivity.
Qed.

Lemma words_whitespace_words (pages : list string) :
  words pages = sum (map whitespace_words pages).
Proof.
  unfold words. induction pages as [| p ps IH]; [reflexivity |].
  cbn [map sum fold_right] in *. rewrite split_length. f_equal. exact IH.
Qed.

(** C9: the three reading-time figures are the number of
    whitespace-separated words of the extracted pages over 200, that of
    the replaced pages over 200, and their difference over 200, which is
    the first figure minus the second. *)
Theorem C9_reading_time (original_text_pages replaced_pages : list string) :
  let wo := sum (map whitespace_words original_text_pages) in
  let wm := sum (map whitespace_words replaced_pages) in
  exists t_original t_minimized t_saved : Q,
    reading_time original_text_pages replaced_pages
    = [ St_subheader "Reading Time Estimation";
        St_metric "Original Time (min)" (Fixed2 t_original);
        St_metric "Minimized Time (min)" (Fixed2 t_minimized);
        St_metric "Time Saved (min)" (Fixed2 t_saved);
        St_markdown "---" ]
    /\ (t_original == inject_Z wo / 200)%Q
    /\ (t_minimized == inject_Z wm / 200)%Q
    /\ (t_saved == inject_Z (wo - wm) / 200)%Q
    /\ (t_saved == t_original - t_minimized)%Q.
Proof.
  intros wo wm.
  exists (minutes wo), (minutes wm), (minutes (wo - wm)).
  split.
  - unfold reading_time. rewrite !words_whitespace_words. reflexivity.
  - unfold minutes. repeat split; try reflexivity.
    unfold Z.sub. rewrite inject_Z_plus, inject_Z_opp. field.
Qed.

(** ** The usage entries on the page *)

Section SortedFacts.
Context {A : Type} (key : A -> Z).

Lemma insert_desc_perm (x : A) (l : list A) :
  Permutation (x :: l) (insert_desc key x l).
Proof.
  induction l as [| y l IH]; cbn [insert_desc]; [reflexivity |].
  destruct (key y <=? key x); [reflexivity |].
  rewrite perm_swap. apply perm_skip. exact IH.
Qed.

Lemma sorted_desc_perm (l : list A) : Permutation l (sorted_desc key l).
Proof.
  induction l as [| x l IH]; [reflexivity |].
  cbn [sorted_desc fold_right]. fold (sorted_desc key l).
  rewrite <- insert_desc_perm. apply perm_skip. exact IH.
Qed.

Lemma insert_desc_sorted (x : A) (l : list A) :
  StronglySorted (desc key) l -> StronglySorted (desc key) (insert_desc key x l).
Proof.
  induction 1 as [| y l Hs IH Hy]; cbn [insert_desc].
  - constructor; constructor.
  - destruct (Z.leb_spec (key y) (key x)) as [Le | Gt].
    + constructor; [constructor; assumption |].
      constructor; [exact Le |].
      eapply List.Forall_impl; [| exact Hy].
      intros z Hz. unfold desc in *. lia.
    + constructor; [exact IH |].
      eapply Permutation_Forall; [apply insert_desc_perm |].
      constructor; [unfold desc; lia | exact Hy].
Qed.

Lemma sorted_desc_sorted (l : list A) :
  StronglySorted (desc key) (sorted_desc key l).
Proof.
  induction l as [| x l IH]; [constructor |].
  cbn [sorted_desc fold_right]. apply insert_desc_sorted. exact IH.
Qed.

(** Stability: the entries of one key value keep their order. *)
Lemma insert_desc_stable (c : Z) (x : A) (l : list A) :
  List.filter (fun y => key y =? c) (insert_desc key x l)
  = List.filter (fun y => key y =? c) (x :: l).
Proof.
  induction l as [| y l IH]; cbn [insert_desc]; [reflexivity |].
  destruct (Z.leb_spec (key y) (key x)) as [Le | Gt]; [reflexivity |].
  cbn [List.filter] in *. rewrite IH.
  destruct (Z.eqb_spec (key x) c), (Z.eqb_spec (key y) c);
    try reflexivity; lia.
Qed.

Lemma sorted_desc_stable (c : Z) (l : list A) :
  List.filter (fun y => key y =? c) (sorted_desc key l)
  = List.filter (fun y => key y =? c) l.
Proof.
  induction l as [| x l IH]; [reflexivity |].
  cbn [sorted_desc fold_right]. fold (sorted_desc key l).
  rewrite insert_desc_stable. cbn [List.filter]. rewrite IH. reflexivity.
Qed.
End SortedFacts.

(** *** The order of the reference pages *)

Lemma forallb_map {A B : Type} (f : A -> B) (g : B -> bool) (l : list A) :
  forallb g (map f l) = forallb (fun x => g (f x)) l.
Proof. induction l as [| a l IH]; [reflexivity |]. cbn. rewrite IH. reflexivity. Qed.

Lemma string_compare_trans (s1 s2 s3 : string) :
  String.compare s1 s2 <> Gt -> String.compare s2 s3 <> Gt ->
  String.compare s1 s3 <> Gt.
Proof.
  revert s2 s3. induction s1 as [| c1 s1 IH]; intros [| c2 s2] [| c3 s3];
    cbn [String.compare]; try congruence.
  unfold Ascii.compare.
  destruct (N.compare_spec (N_of_ascii c1) (N_of_ascii c2)) as [E12 | L12 | G12];
    destruct (N.compare_spec (N_of_ascii c2) (N_of_ascii c3)) as [E23 | L23 | G23];
    destruct (N.compare_spec (N_of_ascii c1) (N_of_ascii c3)) as [E13 | L13 | G13];
    intros H12 H23; try congruence; try lia.
  exact (IH s2 s3 H12 H23).
Qed.

Lemma string_leb_trans (s1 s2 s3 : string) :
  String.leb s1 s2 = true -> String.leb s2 s3 = true ->
  String.leb s1 s3 = true.
Proof.
  unfold String.leb. intros H12 H23.
  pose proof (string_compare_trans s1 s2 s3) as Ht.
  destruct (String.compare s1 s2); try discriminate;
    destruct (String.compare s2 s3); try discriminate;
    destruct (String.compare s1 s3); try reflexivity;
    exfalso; apply Ht; congruence.
Qed.

Lemma triple_before_trans (x y z : string * string * Z) :
  triple_before x y = true -> triple_before y z = true ->
  triple_before x z = true.
Proof.
  unfold triple_before, spec_before. cbn [fst snd].
  rewrite !orb_true_iff, !andb_true_iff, !Z.ltb_lt, !Z.eqb_eq.
  intros [Hxy | [Exy Lxy]] [Hyz | [Eyz Lyz]].
  - left. lia.
  - left. lia.
  - left. lia.
  - right. split; [lia |]. exact (string_leb_trans _ _ _ Lxy Lyz).
Qed.

Lemma triple_before_total (x y : string * string * Z) :
  triple_before x y = false -> triple_before y x = true.
Proof.
  unfold triple_before, spec_before. cbn [fst snd].
  rewrite orb_false_iff, andb_false_iff, orb_true_iff, andb_true_iff.
  rewrite Z.ltb_ge, Z.eqb_neq, Z.ltb_lt, Z.eqb_eq.
  intros [Hle [Hne | Hleb]].
  - left. lia.
  - destruct (Z.eq_dec (snd x) (snd y)) as [E | N]; [| left; lia].
    right. split; [lia |].
    destruct (String.leb_total (fst (fst x)) (fst (fst y))) as [H | H];
      [congruence | exact H].
Qed.

Lemma insert_triple_perm (x : string * string * Z)
  (l : list (string * string * Z)) :
  Permutation (x :: l) (insert_triple x l).
Proof.
  induction l as [| y l IH]; cbn [insert_triple]; [reflexivity |].
  destruct (triple_before x y); [reflexivity |].
  rewrite perm_swap. apply perm_skip. exact IH.
Qed.

Lemma triples_in_order_cons (x : string * string * Z)
  (l : list (string * string * Z)) :
  triples_in_order (x :: l)
  = forallb (triple_before x) l && triples_in_order l.
Proof.
  unfold triples_in_order. cbn [map in_spec_order].
  rewrite forallb_map. reflexivity.
Qed.

Lemma forallb_insert_triple (f : string * string * Z -> bool)
  (x : string * string * Z) (l : list (string * string * Z)) :
  forallb f (insert_triple x l) = f x && forallb f l.
Proof.
  induction l as [| y l IH]; cbn [insert_triple forallb];
    [reflexivity |].
  destruct (triple_before x y); cbn [forallb]; [reflexivity |].
  rewrite IH. destruct (f x), (f y); reflexivity.
Qed.

Lemma insert_triple_in_order (x : string * string * Z)
  (l : list (string * string * Z)) :
  triples_in_order l = true -> triples_in_order (insert_triple x l) = true.
Proof.
  induction l as [| y l IH]; intros Hl; [reflexivity |].
  rewrite triples_in_order_cons in Hl. apply andb_prop in Hl as [Hy Hl].
  cbn [insert_triple]. destruct (triple_before x y) eqn:Exy.
  - rewrite !triples_in_order_cons. cbn [forallb].
    rewrite Exy, Hy, Hl, !andb_true_r.
    apply List.forallb_forall. intros z Hz.
    rewrite List.forallb_forall in Hy.
    exact (triple_before_trans x y z Exy (Hy z Hz)).
  - rewrite triples_in_order_cons, forallb_insert_triple.
    rewrite (triple_before_total x y Exy), Hy, (IH Hl). reflexivity.
Qed.

Lemma reference_page_triples_sorted (used_abbr : usage) :
  Permutation (map triple_of used_abbr)
              (reference_page_triples true used_abbr)
  /\ triples_in_order (reference_page_triples true used_abbr) = true.
Proof.
  unfold reference_page_triples.
  induction (map triple_of used_abbr) as [| x l [IHp IHs]];
    [split; reflexivity |].
  cbn [fold_right]. split.
  - rewrite <- insert_triple_perm. apply perm_skip. exact IHp.
  - apply insert_triple_in_order. exact IHs.
Qed.

(** C5, as the script has it: the reference pages, when asked for, list
    the triples of the usage record one for one, in the order of the
    specification (descending count, ascending fullForm among equal
    counts); the table lists the triples of the usage record one for one,
    in the order of the record; the chart shows the first ten entries of
    the record sorted by descending count, entries of equal count staying
    in the order of the record. *)
Theorem C5_entries_presented (used_abbr : usage) :
  let key := fun x : string * usage_entry => count (snd x) in
  (Permutation (map triple_of used_abbr)
               (reference_page_triples true used_abbr)
   /\ in_spec_order (map (fun t => (fst (fst t), snd t))
                         (reference_page_triples true used_abbr)) = true)
  /\ map (fun r => (full_form r, abbreviation r, replacement_count r))
         (table_data used_abbr)
     = map (fun x => (fst x, abbr (snd x), count (snd x))) used_abbr
  /\ exists s : usage,
       sorted_abbr used_abbr = firstn 10 s
       /\ Permutation used_abbr s
       /\ StronglySorted (fun x y => key y <= key x) s
       /\ forall c : Z,
            List.filter (fun x => key x =? c) s
            = List.filter (fun x => key x =? c) used_abbr.
Proof.
  intros key. split; [exact (reference_page_triples_sorted used_abbr) |].
  split.
  - unfold table_data. rewrite map_map. reflexivity.
  - exists (sorted_desc key used_abbr).
    split; [reflexivity |].
    split; [apply sorted_desc_perm |].
    split; [apply (sorted_desc_sorted key) |].
    intros c. apply sorted_desc_stable.
Qed.

(** C5 as stated fails: two entries of equal count appear in the order of
    the record, not of their fullForms, in the table and in the chart;
    the table is not sorted by count; and the chart drops what comes
    after the tenth entry. *)
Lemma C5_counterexample :
  let u : usage :=
    [ ("neural network"%string, {| abbr := "NN"; count := 3 |});
      ("data structure"%string, {| abbr := "DS"; count := 3 |});
      ("machine learning"%string, {| abbr := "ML"; count := 5 |}) ] in
  let eleven : usage :=
    map (fun n => (String (ascii_of_nat (97 + n)) "",
                   {| abbr := "x"; count := 1 |})) (seq 0 11) in
  in_spec_order (map (fun r => (full_form r, replacement_count r))
                     (table_data u)) = false
  /\ in_spec_order (map (fun x => (fst x, count (snd x)))
                        (sorted_abbr u)) = false
  /\ map fst (sorted_abbr u)
     = ["machine learning"; "neural network"; "data structure"]%string
  /\ List.length (sorted_abbr eleven) = 10%nat.
Proof. vm_compute. repeat split; reflexivity. Qed.

(** ** The run and the disk *)

Lemma starts_with_app (old rest : chars) : starts_with old (old ++ rest) = true.
Proof.
  induction old as [| c old IH]; [reflexivity |].
  cbn [app starts_with]. rewrite IH.
  destruct (Ascii.eqb_spec c c); [reflexivity | congruence].
Qed.

Lemma replace_chars_length_ge (old new : chars) :
  (1 <= List.length old <= List.length new)%nat ->
  forall s, (List.length s <= List.length (replace_chars old new 0 s))%nat.
Proof.
  intros Hlen s.
  remember (List.length s) as n eqn:En. revert s En.
  induction n as [n IH] using lt_wf_ind. intros s En.
  destruct s as [| c s]; [simpl in *; lia |].
  cbn [replace_chars]. destruct (starts_with old (c :: s)).
  - rewrite replace_chars_skip, length_app.
    simpl in En.
    assert (IH' : (List.length (skipn (List.length old - 1) s)
                   <= List.length (replace_chars old new 0
                                     (skipn (List.length old - 1) s)))%nat).
    { eapply IH; [| reflexivity]. rewrite length_skipn. lia. }
    rewrite length_skipn in IH'. simpl. lia.
  - simpl in *. specialize (IH (List.length s) ltac:(lia) s eq_refl). lia.
Qed.

Lemma replace_chars_length_gt (old new pre : chars) :
  (1 <= List.length old < List.length new)%nat ->
  (List.length (pre ++ old)
   < List.length (replace_chars old new 0 (pre ++ old)))%nat.
Proof.
  intros Hlen.
  assert (Hhit : forall c s,
             starts_with old (c :: s) = true ->
             (List.length (c :: s)
              < List.length (replace_chars old new 0 (c :: s)))%nat).
  { intros c s Hs. cbn [replace_chars]. rewrite Hs.
    rewrite replace_chars_skip, length_app.
    pose proof (replace_chars_length_ge old new ltac:(lia)
                  (skipn (List.length old - 1) s)) as Hge.
    rewrite length_skipn in Hge. simpl. lia. }
  induction pre as [| c pre IH].
  - destruct old as [| c old]; [simpl in Hlen; lia |].
    cbn [app]. apply Hhit.
    rewrite <- (app_nil_r old) at 2. apply (starts_with_app (c :: old) []).
  - cbn [app]. destruct (starts_with old (c :: pre ++ old)) eqn:Hs.
    + apply Hhit. exact Hs.
    + cbn [replace_chars]. rewrite Hs. simpl. simpl in IH. lia.
Qed.

(** The output path is never the input path. *)
Lemma output_path_differs (stem : string) :
  output_path_of (stem ++ ".pdf") <> (stem ++ ".pdf")%string.
Proof.
  intros E. apply (f_equal chars_of) in E.
  unfold output_path_of, replace in E.
  rewrite chars_of_str_of, chars_of_append in E.
  pose proof (replace_chars_length_gt (chars_of ".pdf")
                (chars_of "_minimized.pdf") (chars_of stem)
                ltac:(simpl; lia)) as Hgt.
  rewrite E in Hgt. lia.
Qed.

Section Preserves.
Context (P : world -> Prop).
Context (Hpage : forall w x,
            P w -> P {| files := files w; page := page w ++ [x] |}).

Lemma preserves_ret {A} (a : A) : preserves P (ret a).
Proof. intros w Hw. exact Hw. Qed.

Lemma preserves_lift {A} (r : outcome A) : preserves P (lift r).
Proof. intros w Hw. exact Hw. Qed.

Lemma preserves_bind {A B} (m : M A) (k : A -> M B) :
  preserves P m -> (forall a, preserves P (k a)) -> preserves P (bind m k).
Proof.
  intros Hm Hk w Hw. unfold bind.
  specialize (Hm w Hw). destruct (m w) as [w1 [a | e]]; simpl in *.
  - apply Hk. exact Hm.
  - exact Hm.
Qed.

Lemma preserves_emit (x : widget) : preserves P (emit x).
Proof. intros w Hw. apply Hpage. exact Hw. Qed.

Lemma preserves_emit_all (l : list widget) : preserves P (emit_all l).
Proof.
  induction l as [| x l IH]; cbn [emit_all].
  - apply preserves_ret.
  - apply preserves_bind; [apply preserves_emit | intros _; exact IH].
Qed.

Lemma preserves_read_file (path : string) : preserves P (read_file path).
Proof.
  intros w Hw. unfold read_file. destruct (files w !! path); exact Hw.
Qed.

Lemma preserves_getsize (path : string) : preserves P (getsize path).
Proof.
  apply preserves_bind; [apply preserves_read_file |].
  intros data. apply preserves_ret.
Qed.
End Preserves.

Lemma preserves_write_other (path data other new_data : string) :
  other <> path -> preserves (holds path data) (write_file other new_data).
Proof.
  intros Hne w Hw. unfold holds in *. simpl.
  rewrite lookup_insert_ne by exact Hne. exact Hw.
Qed.

Lemma holds_page (path data : string) (w : world) (x : widget) :
  holds path data w ->
  holds path data {| files := files w; page := page w ++ [x] |}.
Proof. intros Hw. exact Hw. Qed.

(** C7, as the script has it: the temporary input file is created with
    [delete=False] and nothing removes it: when the run ends, normally or
    with an exception, the file is on disk with the uploaded contents. *)
Theorem C7_temporary_file_stays `{Imports}
  (uploaded : string) (include_reference_pages : bool) (tmp_stem : string)
  (w : world) :
  files (fst (run uploaded include_reference_pages tmp_stem w))
    !! (tmp_stem ++ ".pdf")%string
  = Some uploaded.
Proof.
  set (input := (tmp_stem ++ ".pdf")%string).
  change (holds input uploaded
            (fst (run uploaded include_reference_pages tmp_stem w))).
  unfold run, named_temporary_file.
  unfold bind at 1. unfold bind at 1. cbn [write_file ret].
  match goal with
  | |- holds _ _ (fst (?m ?w1)) =>
      assert (Hm : preserves (holds input uploaded) m);
      [| apply Hm; unfold holds; simpl; apply lookup_insert_eq]
  end.
  pose proof (holds_page input uploaded) as Hp.
  unfold extract_text_from_pdf, load_abbreviations, abbreviate_pdf.
  repeat first
    [ apply preserves_bind; [| intros ?]
    | apply preserves_emit_all; exact Hp
    | apply preserves_emit; exact Hp
    | apply preserves_read_file
    | apply preserves_getsize
    | apply preserves_lift
    | apply preserves_ret
    | apply preserves_write_other; apply output_path_differs ].
Qed.

(** C7 as stated fails: after a run that succeeds and after a run that
    stops with an exception, the temporary input file is still on disk. *)
Lemma C7_counterexample :
  let done :=
    run (H := example_imports []) "the cat sat" false "/tmp/tmpab12cd34"
        example_world in
  let failed :=
    run (H := failing_imports) "the cat sat" false "/tmp/tmpab12cd34"
        example_world in
  snd done = Ok tt
  /\ files (fst done) !! "/tmp/tmpab12cd34.pdf"%string
     = Some "the cat sat"%string
  /\ snd failed = Raise (ImportedError "extractor")
  /\ files (fst failed) !! "/tmp/tmpab12cd34.pdf"%string
     = Some "the cat sat"%string.
Proof. vm_compute. repeat split; reflexivity. Qed.

(** ** What a successful run renders *)

Lemma emit_all_run (l : list widget) (w : world) :
  emit_all l w = ({| files := files w; page := page w ++ l |}, Ok tt).
Proof.
  revert w. induction l as [| x l IH]; intros [f pg].
  - cbn. rewrite app_nil_r. reflexivity.
  - cbn [emit_all]. unfold bind, emit. rewrite IH. cbn.
    rewrite <- app_assoc. reflexivity.
Qed.

(** Unfold the next steps of a run in hypothesis [H]. *)
Ltac run_steps H :=
  repeat (progress
            (cbn [files page fst snd] in H;
             unfold bind, read_file, lift, getsize, write_file, ret, emit in H;
             rewrite ?emit_all_run, ?lookup_insert_eq in H)).

Lemma run_Ok `{Imports} (uploaded : string) (toggle : bool) (stem : string)
  (w w' : world) :
  run uploaded toggle stem w = (w', Ok tt) ->
  let input := (stem ++ ".pdf")%string in
  let output := output_path_of input in
  exists pages config D out used percent,
    extract_pages uploaded = Ok pages
    /\ <[input := uploaded]> (files w)
       !! "config/abbreviations.json"%string = Some config
    /\ parse_abbreviations config = Ok D
    /\ render_pdf uploaded D toggle = Ok (out, used)
    /\ percent_reduction (len uploaded) (len out) = Ok percent
    /\ files w' = <[output := out]> (<[input := uploaded]> (files w))
    /\ page w'
       = page w ++ rendered pages D used (len uploaded) (len out) percent out.
Proof.
  intros Hrun input output.
  pose proof (output_path_differs stem) as Hne. fold input output in Hne.
  unfold run, named_temporary_file in Hrun.
  unfold bind at 1 in Hrun. unfold bind at 1 in Hrun.
  cbn [write_file ret] in Hrun. fold input output in Hrun.
  unfold extract_text_from_pdf, load_abbreviations, abbreviate_pdf in Hrun.
  run_steps Hrun.
  destruct (extract_pages uploaded) as [pages | e] eqn:Hx; [| discriminate].
  run_steps Hrun.
  destruct (<[input := uploaded]> (files w)
            !! "config/abbreviations.json"%string) as [config |] eqn:Hc;
    [| discriminate].
  run_steps Hrun.
  destruct (parse_abbreviations config) as [D | e] eqn:Hd; [| discriminate].
  run_steps Hrun.
  destruct (render_pdf uploaded D toggle) as [[out used] | e] eqn:Hr;
    [| discriminate].
  run_steps Hrun.
  rewrite lookup_insert_ne in Hrun by exact Hne.
  run_steps Hrun.
  destruct (percent_reduction (len uploaded) (len out)) as [percent | e] eqn:Hp;
    [| discriminate].
  run_steps Hrun.
  injection Hrun as Hw'. subst w'. cbn [files page].
  exists pages, config, D, out, used, percent.
  repeat (split; [first [assumption | reflexivity] |]).
  unfold rendered. rewrite <- !app_assoc. reflexivity.
Qed.

Lemma notices_app (l1 l2 : list widget) :
  notices (l1 ++ l2) = (notices l1 ++ notices l2)%list.
Proof. unfold notices. apply flat_map_app. Qed.

Lemma notices_rendered `{Imports} (pages : list string) (D : dict)
  (used : usage) (o m : Z) (percent : Q) (out : string) :
  notices (rendered pages D used o m percent out)
  = match used with
    | [] => ["No abbreviations were used in this document."%string]
    | _ :: _ => []
    end.
Proof.
  unfold rendered. rewrite !notices_app.
  destruct used; reflexivity.
Qed.

(** C6, as the script has it: the run never compares the two usage
    records.  What it reports about usage is the record returned by the
    PDF rewriter, and the only message a successful run adds to the page
    is "No abbreviations were used in this document.", exactly when that
    record is empty. *)
Theorem C6_only_rewriter_usage `{Imports}
  (uploaded : string) (include_reference_pages : bool) (tmp_stem : string)
  (w w' : world) :
  run uploaded include_reference_pages tmp_stem w = (w', Ok tt) ->
  exists (D : dict) (out : string) (used : usage),
    render_pdf uploaded D include_reference_pages = Ok (out, used)
    /\ notices (page w')
       = (notices (page w)
          ++ match used with
             | [] => ["No abbreviations were used in this document."%string]
             | _ :: _ => []
             end)%list
    /\ In (St_metric "Total Replacements" (Int (total_replacements used)))
          (page w').
Proof.
  intros Hrun. apply run_Ok in Hrun.
  destruct Hrun as (pages & config & D & out & used & percent
                    & _ & _ & _ & Hr & _ & _ & Hpage).
  exists D, out, used. split; [exact Hr |]. rewrite Hpage. split.
  - rewrite notices_app, notices_rendered. reflexivity.
  - apply in_or_app. right. unfold rendered.
    apply in_or_app. right. apply in_or_app. right.
    apply in_or_app. left. unfold metrics. simpl. tauto.
Qed.

Lemma C6_only_rewriter_usage_witness :
  let I := example_imports [("cat"%string, {| abbr := "C"; count := 2 |})] in
  let w' := fst (run (H := I) "the cat sat" false "/tmp/tmpab12cd34"
                     example_world) in
  exists (D : dict) (out : string) (used : usage),
    render_pdf (Imports := I) "the cat sat" D false = Ok (out, used)
    /\ notices (page w')
       = (notices (page example_world)
          ++ match used with
             | [] => ["No abbreviations were used in this document."%string]
             | _ :: _ => []
             end)%list
    /\ In (St_metric "Total Replacements" (Int (total_replacements used)))
          (page w').
Proof.
  intros I w'.
  apply (C6_only_rewriter_usage (H := I) "the cat sat" false
           "/tmp/tmpab12cd34" example_world w').
  vm_compute. reflexivity.
Defined.

(** C6 as stated fails: the text replacer counts one substitution of
    "cat", the PDF rewriter reports two, and the run ends normally, shows
    the rewriter's total and renders no message at all. *)
Lemma C6_counterexample :
  let pdf_usage : usage :=
    [("cat"%string, {| abbr := "C"; count := 2 |})] in
  let text_usage :=
    snd (text_replacer [("cat", "C")]%string ["the cat sat"%string]) in
  let r := run (H := example_imports pdf_usage) "the cat sat" false
               "/tmp/tmpab12cd34" example_world in
  text_usage = [("cat"%string, {| abbr := "C"; count := 1 |})]
  /\ text_usage <> pdf_usage
  /\ snd r = Ok tt
  /\ notices (page (fst r)) = []
  /\ In (St_metric "Total Replacements" (Int 2)) (page (fst r)).
Proof.
  vm_compute. repeat split; try reflexivity; try discriminate.
  do 11 right. left. reflexivity.
Qed.

(** ** The text replacer: a second pass *)

(** C3 as stated fails: no abbreviation of the dictionary is a fullForm,
    yet the first pass writes "GPU cluster node", in which the second
    pass finds the fullForm "gpu cluster node". *)
Lemma C3_counterexample :
  let D : dict :=
    [("gpu cluster node", "GCN"); ("graphics card", "GPU")]%string in
  let P := ["graphics card cluster node"%string] in
  let first := text_replacer D P in
  let second := text_replacer D (fst first) in
  abbreviations_not_keys D = true
  /\ fst first = ["GPU cluster node"%string]
  /\ fst second = ["GCN"%string]
  /\ snd second
     = [("gpu cluster node"%string, {| abbr := "GCN"; count := 1 |})].
Proof. vm_compute. repeat split; reflexivity. Qed.

(** *** Characters *)

Lemma is_word_char_lower (c : ascii) : is_word_char (lower c) = is_word_char c.
Proof. destruct c as [[] [] [] [] [] [] [] []]; reflexivity. Qed.

Lemma eq_ci_word (a b : ascii) :
  eq_ci a b = true -> is_word_char a = is_word_char b.
Proof.
  unfold eq_ci. intros E. apply Ascii.eqb_eq in E.
  rewrite <- (is_word_char_lower a), <- (is_word_char_lower b), E.
  reflexivity.
Qed.

Lemma eq_ci_sym (a b : ascii) : eq_ci a b = eq_ci b a.
Proof. unfold eq_ci. apply Ascii.eqb_sym. Qed.

Lemma chars_of_length (k : string) :
  List.length (chars_of k) = String.length k.
Proof.
  unfold chars_of. induction k as [| c k IH]; [reflexivity |].
  simpl. rewrite IH. reflexivity.
Qed.

(** *** The best match *)

Lemma best_match_None (D : dict) (prev : option ascii) (s : chars) :
  best_match D prev s = None <->
  forall k a, In (k, a) D -> matches_at prev (chars_of k) s = false.
Proof.
  induction D as [| [k0 a0] D IH]; cbn [best_match].
  - split; [intros _ k a [] | reflexivity].
  - destruct (matches_at prev (chars_of k0) s) eqn:Hm.
    + split.
      * intros E. destruct (best_match D prev s) as [[k' a'] |];
          [destruct (String.length k0 <? String.length k')%nat |];
          discriminate.
      * intros Hall. specialize (Hall k0 a0 (or_introl eq_refl)). congruence.
    + rewrite IH. split.
      * intros Hall k a [E | Hin]; [congruence | eauto].
      * intros Hall k a Hin. apply (Hall k a). right. exact Hin.
Qed.

Lemma best_match_Some (D : dict) (prev : option ascii) (s : chars)
  (k a : string) :
  best_match D prev s = Some (k, a) ->
  In (k, a) D /\ matches_at prev (chars_of k) s = true.
Proof.
  induction D as [| [k0 a0] D IH]; cbn [best_match]; [discriminate |].
  destruct (matches_at prev (chars_of k0) s) eqn:Hm.
  - destruct (best_match D prev s) as [[k' a'] |].
    + destruct (String.length k0 <? String.length k')%nat; intros E.
      * destruct (IH E) as [Hin Hk]. split; [right; exact Hin | exact Hk].
      * injection E as <- <-. split; [left; reflexivity | exact Hm].
    + intros E. injection E as <- <-. split; [left; reflexivity | exact Hm].
  - intros E. destruct (IH E) as [Hin Hk]. split; [right; exact Hin | exact Hk].
Qed.

(** *** One pass *)

Lemma scan_skip (D : dict) (n : nat) (s : chars) (prev : option ascii)
  (u : usage) :
  scan D prev n s u = scan D (prev_after prev n s) 0 (skipn n s) u.
Proof.
  revert n prev. induction s as [| c s IH]; intros n prev.
  - destruct n; reflexivity.
  - destruct n as [| n]; [reflexivity |].
    cbn [scan prev_after skipn]. apply IH.
Qed.

(** The text written does not depend on the usage record received. *)
Lemma scan_fst (D : dict) (s : chars) (prev : option ascii) (n : nat)
  (u : usage) :
  fst (scan D prev n s u) = fst (scan D prev n s []).
Proof.
  revert prev n u. induction s as [| c s IH]; intros prev n u;
    [reflexivity |].
  cbn [scan]. destruct n as [| n]; [| apply IH].
  destruct (best_match D prev (c :: s)) as [[k a] |].
  - pose proof (IH (Some c) (String.length k - 1)%nat (record_use k a u)) as H1.
    pose proof (IH (Some c) (String.length k - 1)%nat (record_use k a [])) as H2.
    destruct (scan D (Some c) (String.length k - 1) s (record_use k a u)).
    destruct (scan D (Some c) (String.length k - 1) s (record_use k a [])).
    simpl in *. congruence.
  - pose proof (IH (Some c) 0%nat u) as H1.
    destruct (scan D (Some c) 0 s u), (scan D (Some c) 0 s []).
    simpl in *. congruence.
Qed.

(** A text in which nothing matches is copied, and nothing is counted. *)
Lemma scan_no_match (D : dict) (s : chars) (prev : option ascii) (u : usage) :
  no_match_in D prev s = true -> scan D prev 0 s u = (s, u).
Proof.
  revert prev. induction s as [| c s IH]; intros prev Hn; [reflexivity |].
  cbn [no_match_in] in Hn. apply andb_prop in Hn as [Hb Hs].
  cbn [scan]. destruct (best_match D prev (c :: s)); [discriminate |].
  rewrite (IH _ Hs). reflexivity.
Qed.

(** How a pass begins. *)
Lemma scan_out_nil (D : dict) (prev : option ascii) : scan_out D prev [] = [].
Proof. reflexivity. Qed.

Lemma scan_out_keep (D : dict) (prev : option ascii) (c : ascii) (s : chars) :
  best_match D prev (c :: s) = None ->
  scan_out D prev (c :: s) = c :: scan_out D (Some c) s.
Proof.
  intros E. unfold scan_out. cbn [scan]. rewrite E.
  destruct (scan D (Some c) 0 s []). reflexivity.
Qed.

Lemma scan_out_subst (D : dict) (prev : option ascii) (c : ascii) (s : chars)
  (k a : string) :
  best_match D prev (c :: s) = Some (k, a) ->
  scan_out D prev (c :: s)
  = chars_of a
    ++ scan_out D (prev_after (Some c) (String.length k - 1) s)
                  (skipn (String.length k - 1) s).
Proof.
  intros E. unfold scan_out. cbn [scan]. rewrite E.
  rewrite scan_skip.
  rewrite <- (scan_fst D _ _ _ (record_use k a [])).
  destruct (scan D _ 0 (skipn (String.length k - 1) s) (record_use k a [])).
  reflexivity.
Qed.

(** *** Matching *)

Lemma matches_at_true (prev : option ascii) (k s : chars) :
  matches_at prev k s = true <->
  nonempty k = true /\ boundary_before prev = true
  /\ prefix_ci k s = true
  /\ boundary_after (skipn (List.length k) s) = true.
Proof.
  unfold matches_at. rewrite !andb_true_iff. tauto.
Qed.

Lemma best_match_no_boundary (D : dict) (prev : option ascii) (s : chars) :
  boundary_before prev = false -> best_match D prev s = None.
Proof.
  intros Hb. apply best_match_None. intros k a _.
  unfold matches_at. rewrite Hb, andb_false_r. reflexivity.
Qed.

(** A fullForm that reaches over a written abbreviation [a] begins with
    it, ignoring case. *)
Lemma prefix_ci_over (a j t : chars) :
  (List.length a <= List.length j)%nat ->
  prefix_ci j (a ++ t) = true ->
  prefix_ci a j = true /\ prefix_ci (skipn (List.length a) j) t = true.
Proof.
  revert j. induction a as [| c a IH]; intros j Hlen Hp.
  - split; [reflexivity | exact Hp].
  - destruct j as [| x j]; [simpl in Hlen; lia |].
    cbn [app prefix_ci] in Hp. apply andb_prop in Hp as [Hx Hp].
    simpl in Hlen. destruct (IH j ltac:(lia) Hp) as [H1 H2].
    split; [| exact H2].
    cbn [prefix_ci]. rewrite eq_ci_sym, Hx, H1. reflexivity.
Qed.

(** A match cannot end inside a word. *)
Lemma boundary_after_inside (a t : chars) (n : nat) :
  (n < List.length a)%nat ->
  forallb is_word_char a = true ->
  boundary_after (skipn n (a ++ t)) = false.
Proof.
  revert n. induction a as [| c a IH]; intros n Hn Hw; [simpl in Hn; lia |].
  cbn [forallb] in Hw. apply andb_prop in Hw as [Hc Hw].
  destruct n as [| n].
  - cbn. rewrite Hc. reflexivity.
  - cbn [app skipn]. apply IH; [simpl in Hn; lia | exact Hw].
Qed.

Lemma prev_after_snoc (prev : option ascii) (i : chars) (x : ascii) :
  prev_after prev (List.length (i ++ [x])) (i ++ [x]) = Some x.
Proof.
  revert prev. induction i as [| c i IH]; intros prev; [reflexivity |].
  cbn [app List.length prev_after]. apply IH.
Qed.

Lemma prev_after_word (prev : option ascii) (a : chars) :
  nonempty a = true -> forallb is_word_char a = true ->
  boundary_before (prev_after prev (List.length a) a) = false.
Proof.
  revert prev. induction a as [| c a IH]; intros prev Hne Hw; [discriminate |].
  cbn [forallb] in Hw. apply andb_prop in Hw as [Hc Hw].
  cbn [List.length prev_after]. destruct a as [| d a].
  - cbn. rewrite Hc. reflexivity.
  - apply IH; [reflexivity | exact Hw].
Qed.

(** An occurrence further inside a fullForm. *)
Lemma occurs_in_at (a i j : chars) (prev : option ascii) :
  matches_at (prev_after prev (List.length i) i) a j = true ->
  occurs_in prev a (i ++ j) = true.
Proof.
  revert prev. induction i as [| c i IH]; intros prev Hm.
  - cbn [List.length prev_after app] in *.
    destruct j as [| x j].
    + apply matches_at_true in Hm as (Hne & _ & Hp & _).
      destruct a; discriminate.
    + cbn [occurs_in]. rewrite Hm. reflexivity.
  - cbn [app occurs_in]. cbn [List.length prev_after] in Hm.
    rewrite (IH _ Hm). apply orb_true_r.
Qed.

Lemma last_cons_default (l : chars) (a x y : ascii) :
  List.last (a :: l) x = List.last (a :: l) y.
Proof.
  revert a. induction l as [| b l IH]; intros a; [reflexivity |].
  change (List.last (b :: l) x = List.last (b :: l) y). apply IH.
Qed.

(** The last character of a matched phrase is a word character. *)
Lemma matched_ends_in_word (k s : chars) (x c : ascii) :
  prefix_ci (x :: k) (c :: s) = true ->
  is_word_char (List.last (x :: k) x) = true ->
  boundary_before (prev_after (Some c) (List.length k) s) = false.
Proof.
  revert s x c. induction k as [| y k IH]; intros s x c Hp Hw.
  - cbn [prefix_ci] in Hp. apply andb_prop in Hp as [Hx _].
    cbn in *. rewrite <- (eq_ci_word _ _ Hx), Hw. reflexivity.
  - cbn [prefix_ci] in Hp. apply andb_prop in Hp as [_ Hp].
    destruct s as [| d s]; [discriminate |].
    cbn [List.length prev_after]. apply (IH s y d Hp).
    change (is_word_char (List.last (y :: k) x) = true) in Hw.
    rewrite (last_cons_default k y y x). exact Hw.
Qed.

Lemma no_match_in_app (D : dict) (a t : chars) (prev : option ascii) :
  (forall a1 a2, a = a1 ++ a2 -> a2 <> [] ->
     best_match D (prev_after prev (List.length a1) a1) (a2 ++ t) = None) ->
  no_match_in D (prev_after prev (List.length a) a) t = true ->
  no_match_in D prev (a ++ t) = true.
Proof.
  revert prev. induction a as [| c a IH]; intros prev Hhere Htail;
    [exact Htail |].
  cbn [app no_match_in]. apply andb_true_intro. split.
  - pose proof (Hhere [] (c :: a) eq_refl ltac:(discriminate)) as Hnone.
    cbn [List.length prev_after app] in Hnone. rewrite Hnone. reflexivity.
  - apply IH; [| exact Htail].
    intros a1 a2 Ea Ha2.
    apply (Hhere (c :: a1) a2); [rewrite Ea; reflexivity | exact Ha2].
Qed.

(** *** A separated dictionary *)

Section Separated.
Context (D : dict) (Hsep : separated D = true).

Lemma separated_phrase (k a : string) :
  In (k, a) D -> phrase (chars_of k) = true.
Proof.
  intros Hin. unfold separated in Hsep.
  apply andb_prop in Hsep as [Hshape _].
  rewrite List.forallb_forall in Hshape.
  specialize (Hshape _ Hin). apply andb_prop in Hshape as [Hp _]. exact Hp.
Qed.

Lemma separated_single_word (k a : string) :
  In (k, a) D ->
  nonempty (chars_of a) = true /\ forallb is_word_char (chars_of a) = true.
Proof.
  intros Hin. unfold separated in Hsep.
  apply andb_prop in Hsep as [Hshape _].
  rewrite List.forallb_forall in Hshape.
  specialize (Hshape _ Hin). apply andb_prop in Hshape as [_ Hw].
  apply andb_prop in Hw. exact Hw.
Qed.

Lemma separated_no_occurrence (k a k' a' : string) :
  In (k, a) D -> In (k', a') D ->
  occurs_in None (chars_of a) (chars_of k') = false.
Proof.
  intros Hin Hin'. unfold separated in Hsep.
  apply andb_prop in Hsep as [_ Hocc].
  rewrite List.forallb_forall in Hocc. specialize (Hocc _ Hin).
  rewrite List.forallb_forall in Hocc. specialize (Hocc _ Hin').
  apply negb_true_iff in Hocc. exact Hocc.
Qed.

(** What a match at the head of [c :: s] tells. *)
Lemma match_facts (prev : option ascii) (c : ascii) (s : chars)
  (k a : string) :
  best_match D prev (c :: s) = Some (k, a) ->
  In (k, a) D
  /\ boundary_before prev = true
  /\ boundary_before (prev_after (Some c) (String.length k - 1) s) = false
  /\ boundary_after (skipn (String.length k - 1) s) = true
  /\ (List.length (skipn (String.length k - 1) s) <= List.length s)%nat.
Proof.
  intros E. apply best_match_Some in E as [Hin Hm].
  apply matches_at_true in Hm as (Hne & Hb & Hp & Ha).
  pose proof (separated_phrase k a Hin) as Hph.
  rewrite chars_of_length in Ha.
  rewrite <- (chars_of_length k) at 1 2.
  destruct (chars_of k) as [| x K] eqn:EK; [discriminate |].
  assert (EL : String.length k = S (List.length K)).
  { rewrite <- chars_of_length, EK. reflexivity. }
  rewrite EL in Ha. cbn [skipn] in Ha.
  cbn [List.length]. rewrite Nat.sub_succ, Nat.sub_0_r.
  repeat split; try assumption.
  - apply (matched_ends_in_word K s x c Hp).
    unfold phrase in Hph. apply andb_prop in Hph as [_ Hl]. exact Hl.
  - rewrite length_skipn. lia.
Qed.

(** After a substitution the pass goes on with a character that is not a
    word character, or the page ends. *)
Lemma boundary_after_scan_out (prev : option ascii) (s : chars) :
  boundary_before prev = false ->
  boundary_after s = true ->
  boundary_after (scan_out D prev s) = true.
Proof.
  intros Hb Ha. destruct s as [| e s]; [reflexivity |].
  rewrite scan_out_keep by (apply best_match_no_boundary; exact Hb).
  exact Ha.
Qed.

(** A written abbreviation stops every fullForm that would begin before
    it, at it, or reach over it. *)
Lemma chunk_blocks_match (prev : option ascii) (c : ascii) (s : chars)
  (k a k' a' : string) (i j : chars) :
  best_match D prev (c :: s) = Some (k, a) ->
  In (k', a') D -> chars_of k' = i ++ j ->
  boundary_before (prev_after None (List.length i) i) = boundary_before prev ->
  prefix_ci j (scan_out D prev (c :: s)) = true ->
  boundary_after (skipn (List.length j) (scan_out D prev (c :: s))) = true ->
  False.
Proof.
  intros E Hin' Hk' Hinv Hp Ha.
  rewrite (scan_out_subst D prev c s k a E) in Hp, Ha.
  destruct (match_facts prev c s k a E) as (Hin & Hb & Hlast & Hnext & _).
  destruct (separated_single_word k a Hin) as [Hne Hw].
  set (A := chars_of a) in *.
  set (rest := scan_out D _ _) in *.
  destruct (Nat.lt_ge_cases (List.length j) (List.length A)) as [Hlt | Hge].
  - rewrite (boundary_after_inside A rest _ Hlt Hw) in Ha. discriminate.
  - destruct (prefix_ci_over A j rest Hge Hp) as [HpA Hprest].
    assert (Hafter : boundary_after (skipn (List.length A) j) = true).
    { destruct (skipn (List.length A) j) as [| d' j2]; [reflexivity |].
      pose proof (boundary_after_scan_out _ _ Hlast Hnext) as Hr.
      fold rest in Hr. destruct rest as [| d rest']; [discriminate |].
      cbn [prefix_ci] in Hprest. apply andb_prop in Hprest as [Hd _].
      cbn [boundary_after] in *. rewrite (eq_ci_word _ _ Hd). exact Hr. }
    assert (Hm : matches_at (prev_after None (List.length i) i) A j = true).
    { apply matches_at_true. rewrite Hinv. auto. }
    apply occurs_in_at in Hm. rewrite <- Hk' in Hm. unfold A in Hm.
    rewrite (separated_no_occurrence k a k' a' Hin Hin') in Hm.
    discriminate.
Qed.

(** A fullForm that matches in the written text, from a place where the
    pass copied, matches in the page at the same place. *)
Lemma match_transfers (k' a' : string) (j : chars) :
  In (k', a') D ->
  forall (i s : chars) (prev : option ascii),
    chars_of k' = i ++ j ->
    boundary_before (prev_after None (List.length i) i)
    = boundary_before prev ->
    prefix_ci j (scan_out D prev s) = true ->
    boundary_after (skipn (List.length j) (scan_out D prev s)) = true ->
    prefix_ci j s = true /\ boundary_after (skipn (List.length j) s) = true.
Proof.
  intros Hin'. induction j as [| x j IH]; intros i s prev Hk' Hinv Hp Ha.
  - split; [reflexivity |]. cbn [List.length skipn] in *.
    destruct s as [| c s]; [reflexivity |].
    destruct (best_match D prev (c :: s)) as [[k a] |] eqn:E.
    + exfalso.
      exact (chunk_blocks_match prev c s k a k' a' i [] E Hin' Hk' Hinv Hp Ha).
    + rewrite (scan_out_keep D prev c s E) in Ha. exact Ha.
  - destruct s as [| c s]; [discriminate |].
    destruct (best_match D prev (c :: s)) as [[k a] |] eqn:E.
    + exfalso.
      exact (chunk_blocks_match prev c s k a k' a' i (x :: j) E Hin' Hk'
               Hinv Hp Ha).
    + rewrite (scan_out_keep D prev c s E) in Hp, Ha.
      cbn [prefix_ci] in Hp. apply andb_prop in Hp as [Hx Hp].
      cbn [List.length skipn] in Ha.
      destruct (IH (i ++ [x]) s (Some c)) as [H1 H2].
      * rewrite <- app_assoc. exact Hk'.
      * rewrite prev_after_snoc. cbn [boundary_before].
        rewrite (eq_ci_word _ _ Hx). reflexivity.
      * exact Hp.
      * exact Ha.
      * cbn [prefix_ci List.length skipn]. rewrite Hx, H1. split; auto.
Qed.

(** In what a pass writes, no fullForm matches any more. *)
Lemma scan_out_clean (n : nat) :
  forall (s : chars) (prev_page prev_out : option ascii),
    (List.length s <= n)%nat ->
    boundary_before prev_page = boundary_before prev_out ->
    no_match_in D prev_out (scan_out D prev_page s) = true.
Proof.
  induction n as [| n IH]; intros s prev_page prev_out Hn Hprev.
  { destruct s; [reflexivity | simpl in Hn; lia]. }
  destruct s as [| c s]; [reflexivity |]. simpl in Hn.
  destruct (best_match D prev_page (c :: s)) as [[k a] |] eqn:E.
  - destruct (match_facts prev_page c s k a E)
      as (Hin & Hb & Hlast & Hnext & Hlen).
    destruct (separated_single_word k a Hin) as [Hne Hw].
    pose proof (scan_out_subst D prev_page c s k a E) as Hout.
    rewrite Hout. apply no_match_in_app.
    + intros a1 a2 Ea Ha2. destruct a1 as [| b a1].
      * cbn [List.length prev_after app] in *. subst a2.
        apply best_match_None. intros k' a' Hin'.
        destruct (matches_at prev_out (chars_of k') _) eqn:Hm;
          [exfalso | reflexivity].
        apply matches_at_true in Hm as (_ & Hbo & Hp & Ha).
        rewrite <- Hout in Hp, Ha.
        apply (chunk_blocks_match prev_page c s k a k' a' [] (chars_of k')
                 E Hin' eq_refl); [| exact Hp | exact Ha].
        cbn. symmetry. exact Hb.
      * apply best_match_no_boundary. rewrite Ea in Hw.
        rewrite forallb_app in Hw. apply andb_prop in Hw as [Hw1 _].
        apply prev_after_word; [reflexivity | exact Hw1].
    + apply IH; [lia |].
      rewrite Hlast. symmetry. apply prev_after_word; assumption.
  - rewrite (scan_out_keep D prev_page c s E).
    cbn [no_match_in]. apply andb_true_intro. split.
    + assert (Hnone : best_match D prev_out (c :: scan_out D (Some c) s)
                      = None); [| rewrite Hnone; reflexivity].
      apply best_match_None. intros k' a' Hin'.
      destruct (matches_at prev_out (chars_of k') _) eqn:Hm;
        [exfalso | reflexivity].
      apply matches_at_true in Hm as (Hne & Hbo & Hp & Ha).
      rewrite <- (scan_out_keep D prev_page c s E) in Hp, Ha.
      destruct (match_transfers k' a' (chars_of k') Hin' [] (c :: s)
                  prev_page eq_refl) as [Hp' Ha']; [| exact Hp | exact Ha |].
      * cbn. rewrite Hprev. symmetry. exact Hbo.
      * pose proof (proj1 (best_match_None D prev_page (c :: s)) E k' a' Hin')
          as Hno.
        assert (Hyes : matches_at prev_page (chars_of k') (c :: s) = true).
        { apply matches_at_true. rewrite Hprev. auto. }
        congruence.
    + apply IH; [lia | reflexivity].
Qed.

End Separated.

Lemma prefix_ci_refl (a : chars) : prefix_ci a a = true.
Proof.
  induction a as [| c a IH]; [reflexivity |].
  cbn [prefix_ci]. rewrite IH. unfold eq_ci. rewrite Ascii.eqb_refl.
  reflexivity.
Qed.

(** The condition is stronger than the one the specification names: in a
    separated dictionary no abbreviation is a fullForm. *)
Lemma separated_not_keys (D : dict) :
  separated D = true -> abbreviations_not_keys D = true.
Proof.
  intros Hsep. unfold abbreviations_not_keys.
  apply List.forallb_forall. intros [k a] Hin.
  apply negb_true_iff. apply not_true_is_false. intros Hex.
  apply List.existsb_exists in Hex as [[k' a'] [Hin' E]].
  cbn [fst snd] in E. apply String.eqb_eq in E. subst k'.
  pose proof (separated_no_occurrence D Hsep k a a a' Hin Hin') as Hocc.
  destruct (separated_single_word D Hsep k a Hin) as [Hne _].
  destruct (chars_of a) as [| c A] eqn:EA; [discriminate |].
  cbn [occurs_in] in Hocc. apply orb_false_elim in Hocc as [Hm _].
  unfold matches_at in Hm.
  rewrite prefix_ci_refl, skipn_all in Hm. discriminate.
Qed.

(** Why fullForms are asked to be phrases and abbreviations single words:
    with a fullForm that ends in a full stop, or with an abbreviation of
    two words, a second pass finds a match although no abbreviation
    occurs in a fullForm. *)
Example second_pass_not_idle_otherwise :
  let D1 : dict := [("a.", "X"); (" b", "Y"); ("xy", "Q")]%string in
  let D2 : dict := [("x y", "a b"); ("b", "Q")]%string in
  let twice D P := text_replacer D (fst (text_replacer D P)) in
  (abbreviations_not_keys D1 = true
   /\ fst (text_replacer D1 ["a. b"%string]) = ["XY"%string]
   /\ fst (twice D1 ["a. b"%string]) = ["Q"%string])
  /\ (abbreviations_not_keys D2 = true
      /\ fst (text_replacer D2 ["x y"%string]) = ["a b"%string]
      /\ fst (twice D2 ["x y"%string]) = ["a Q"%string]).
Proof. vm_compute. repeat split; reflexivity. Qed.

(** *** Pages and documents *)

Lemma replace_page_fst (D : dict) (p : string) (u : usage) :
  fst (replace_page D p u) = str_of (scan_out D None (chars_of p)).
Proof.
  unfold replace_page, scan_out.
  rewrite <- (scan_fst D (chars_of p) None 0 u).
  destruct (scan D None 0 (chars_of p) u). reflexivity.
Qed.

Lemma replace_page_clean (D : dict) (p : string) (u : usage) :
  no_match_in D None (chars_of p) = true -> replace_page D p u = (p, u).
Proof.
  intros Hn. unfold replace_page. rewrite (scan_no_match D _ _ u Hn).
  rewrite str_of_chars_of. reflexivity.
Qed.

Lemma replace_pages_fst (D : dict) (P : list string) (u : usage) :
  fst (replace_pages D P u)
  = map (fun p => str_of (scan_out D None (chars_of p))) P.
Proof.
  revert u. induction P as [| p P IH]; intros u; [reflexivity |].
  cbn [replace_pages map].
  pose proof (replace_page_fst D p u) as Hp.
  destruct (replace_page D p u) as [p' u1]. simpl in Hp.
  specialize (IH u1). destruct (replace_pages D P u1) as [P' u2].
  simpl in *. congruence.
Qed.

Lemma replace_pages_clean (D : dict) (P : list string) (u : usage) :
  Forall (fun p => no_match_in D None (chars_of p) = true) P ->
  replace_pages D P u = (P, u).
Proof.
  induction 1 as [| p P Hp _ IH]; [reflexivity |].
  cbn [replace_pages]. rewrite (replace_page_clean D p u Hp), IH.
  reflexivity.
Qed.

(** With an empty dictionary a pass changes nothing. *)
Lemma empty_dictionary_idle (P : list string) : text_replacer [] P = (P, []).
Proof.
  apply replace_pages_clean. apply List.Forall_forall. intros p _.
  generalize (@None ascii).
  induction (chars_of p) as [| c s IH]; intros prev; [reflexivity |].
  cbn [no_match_in best_match is_none andb]. apply IH.
Qed.

(** C3, as the replacer of the specification has it: when every fullForm
    of the dictionary begins and ends with a word character, every
    abbreviation is a single word, and no abbreviation occurs (ignoring
    case) as a whole word inside a fullForm, a second pass over the pages
    written by a first pass changes no page and counts nothing. *)
Theorem C3_second_pass_idle (D : dict) (P : list string) :
  separated D = true ->
  text_replacer D (fst (text_replacer D P)) = (fst (text_replacer D P), []).
Proof.
  intros Hsep. unfold text_replacer.
  apply replace_pages_clean.
  rewrite replace_pages_fst. apply List.Forall_forall. intros q Hq.
  apply in_map_iff in Hq as [p [<- _]].
  rewrite chars_of_str_of.
  apply (scan_out_clean D Hsep (List.length (chars_of p))); reflexivity.
Qed.

Lemma C3_second_pass_idle_witness :
  let D : dict :=
    [("artificial intelligence", "AI"); ("data structure", "DS");
     ("data", "D")]%string in
  let P :=
    ["artificial intelligence is transforming artificial intelligence research";
     "the data structure holds the data"]%string in
  text_replacer D (fst (text_replacer D P)) = (fst (text_replacer D P), []).
Proof.
  intros D P. apply (C3_second_pass_idle D P). vm_compute. reflexivity.
Defined.

(** ** The download *)

(** A run that ends normally has written the output document to the
    output path and ends the page with the download button, which offers
    the contents of that file as [minimized_output.pdf], of type
    [application/pdf]. *)
Lemma run_offers_download `{Imports} (uploaded : string) (toggle : bool)
  (stem : string) (w w' : world) :
  run uploaded toggle stem w = (w', Ok tt) ->
  exists (out : string) (before : list widget),
    files w' !! output_path_of (stem ++ ".pdf") = Some out
    /\ page w'
       = before ++ [ St_download_button "Download Minimized PDF" out
                       "minimized_output.pdf" "application/pdf" ].
Proof.
  intros Hrun. apply run_Ok in Hrun.
  destruct Hrun as (pages & config & D & out & used & percent
                    & _ & _ & _ & _ & _ & Hfiles & Hpage).
  exists out. eexists. split.
  - rewrite Hfiles. apply lookup_insert_eq.
  - rewrite Hpage. unfold rendered. rewrite !app_assoc. reflexivity.
Qed.

(** ** Substitution on whole-word boundaries *)

Lemma boundary_before_no_word (prev : option ascii) :
  boundary_before prev = true -> no_word_char prev.
Proof.
  destruct prev as [c |]; cbn; [| trivial].
  intros H. apply negb_true_iff in H. exact H.
Qed.

Lemma boundary_after_no_word (s : chars) :
  boundary_after s = true -> no_word_char (first_char s).
Proof.
  destruct s as [| c s]; cbn; [trivial |].
  intros H. apply negb_true_iff in H. exact H.
Qed.

Lemma prefix_ci_same (k s : chars) :
  prefix_ci k s = true ->
  same_ignoring_case k (firstn (List.length k) s).
Proof.
  revert s. induction k as [| x k IH]; intros s Hp; [constructor |].
  destruct s as [| c s]; [discriminate |].
  cbn [prefix_ci] in Hp. apply andb_prop in Hp as [Hx Hp].
  cbn [List.length firstn]. constructor; [| exact (IH s Hp)].
  unfold eq_ci in Hx. apply Ascii.eqb_eq in Hx. exact Hx.
Qed.

Lemma prev_after_firstn (n : nat) (s : chars) (prev : option ascii) :
  prev_after prev n s
  = prev_after prev (List.length (firstn n s)) (firstn n s).
Proof.
  revert s prev. induction n as [| n IH]; intros s prev.
  - destruct s; reflexivity.
  - destruct s as [| c s]; [reflexivity |].
    cbn [firstn List.length prev_after]. apply IH.
Qed.

Lemma total_record_use (k a : string) (u : usage) :
  total_replacements (record_use k a u) = total_replacements u + 1.
Proof.
  unfold total_replacements, sum.
  induction u as [| [k' e] u IH]; cbn [record_use map fold_right snd count].
  - lia.
  - destruct (String.eqb k k'); cbn [map fold_right snd count]; lia.
Qed.

(** What a match at the head of [c :: s] is. *)
Lemma match_is_whole_word (D : dict) (prev : option ascii) (c : ascii)
  (s : chars) (k a : string) :
  best_match D prev (c :: s) = Some (k, a) ->
  let m := c :: firstn (String.length k - 1) s in
  In (k, a) D
  /\ c :: s = m ++ skipn (String.length k - 1) s
  /\ same_ignoring_case (chars_of k) m
  /\ no_word_char prev
  /\ no_word_char (first_char (skipn (String.length k - 1) s))
  /\ prev_after prev (List.length m) m
     = prev_after (Some c) (String.length k - 1) s.
Proof.
  intros E m. apply best_match_Some in E as [Hin Hm].
  apply matches_at_true in Hm as (Hne & Hb & Hp & Ha).
  assert (EL : String.length k = S (String.length k - 1)).
  { rewrite <- chars_of_length. destruct (chars_of k); [discriminate |].
    simpl. lia. }
  rewrite chars_of_length in Ha. rewrite EL in Ha. cbn [skipn] in Ha.
  apply prefix_ci_same in Hp. rewrite chars_of_length, EL in Hp.
  cbn [firstn] in Hp.
  split; [exact Hin |].
  split; [unfold m; cbn [app]; rewrite firstn_skipn; reflexivity |].
  split; [exact Hp |].
  split; [exact (boundary_before_no_word prev Hb) |].
  split; [exact (boundary_after_no_word _ Ha) |].
  unfold m. cbn [List.length prev_after]. symmetry. apply prev_after_firstn.
Qed.

(** One pass rewrites the page on whole-word boundaries and counts each
    replacement once. *)
Lemma scan_rewrites (D : dict) (fuel : nat) :
  forall (s : chars) (prev : option ascii) (u : usage),
    (List.length s <= fuel)%nat ->
    exists n : nat,
      page_rewrite D prev s (fst (scan D prev 0 s u)) n
      /\ total_replacements (snd (scan D prev 0 s u))
         = total_replacements u + Z.of_nat n.
Proof.
  induction fuel as [| fuel IH]; intros s prev u Hlen.
  { destruct s; [| simpl in Hlen; lia].
    exists 0%nat. split; [apply rewrite_end | cbn [scan replace_pages fst snd]; lia]. }
  destruct s as [| c s].
  { exists 0%nat. split; [apply rewrite_end | cbn [scan replace_pages fst snd]; lia]. }
  simpl in Hlen. cbn [scan].
  destruct (best_match D prev (c :: s)) as [[k a] |] eqn:E.
  - destruct (match_is_whole_word D prev c s k a E)
      as (Hin & Hsplit & Hsame & Hbefore & Hafter & Hprev).
    rewrite scan_skip.
    destruct (IH (skipn (String.length k - 1) s)
                 (prev_after (Some c) (String.length k - 1) s)
                 (record_use k a u)) as (n & Hrw & Htot).
    { rewrite length_skipn. lia. }
    destruct (scan D _ 0 (skipn (String.length k - 1) s) (record_use k a u))
      as [out u'].
    cbn [fst snd] in *. exists (S n). split.
    + rewrite Hsplit. rewrite <- Hprev in Hrw.
      apply (rewrite_subst D prev k a); try assumption. discriminate.
    + rewrite Htot, total_record_use. lia.
  - destruct (IH s (Some c) u ltac:(lia)) as (n & Hrw & Htot).
    destruct (scan D (Some c) 0 s u) as [out u'].
    cbn [fst snd] in *. exists n. split; [| exact Htot].
    apply rewrite_copy. exact Hrw.
Qed.

Lemma replace_pages_rewrite (D : dict) (P : list string) :
  forall u : usage,
    exists n : nat,
      document_rewrite D P (fst (replace_pages D P u)) n
      /\ total_replacements (snd (replace_pages D P u))
         = total_replacements u + Z.of_nat n.
Proof.
  induction P as [| p P IH]; intros u.
  { exists 0%nat. split; [apply document_end | cbn [scan replace_pages fst snd]; lia]. }
  cbn [replace_pages]. unfold replace_page.
  destruct (scan_rewrites D (List.length (chars_of p)) (chars_of p) None u
              (Nat.le_refl _)) as (n & Hrw & Htot).
  destruct (scan D None 0 (chars_of p) u) as [out u1]. cbn [fst snd] in *.
  destruct (IH u1) as (ns & Hdoc & Htots).
  destruct (replace_pages D P u1) as [outs u2]. cbn [fst snd] in *.
  exists (n + ns)%nat. split.
  - apply document_page; [rewrite chars_of_str_of; exact Hrw | exact Hdoc].
  - lia.
Qed.

Lemma prefix_ci_length (k s : chars) :
  prefix_ci k s = true -> (List.length k <= List.length s)%nat.
Proof.
  revert s. induction k as [| x k IH]; intros s Hp; [simpl; lia |].
  destruct s as [| c s]; [discriminate |].
  cbn [prefix_ci] in Hp. apply andb_prop in Hp as [_ Hp].
  specialize (IH s Hp). simpl. lia.
Qed.

Lemma no_match_inside_word (D : dict) (s : chars) (p : ascii) :
  is_word_char p = true -> forallb is_word_char s = true ->
  no_match_in D (Some p) s = true.
Proof.
  revert p. induction s as [| c s IH]; intros p Hp Hs; [reflexivity |].
  cbn [forallb] in Hs. apply andb_prop in Hs as [Hc Hs].
  cbn [no_match_in].
  rewrite best_match_no_boundary by (cbn; rewrite Hp; reflexivity).
  exact (IH c Hc Hs).
Qed.

(** A word is replaced as a whole or not at all. *)
Lemma word_not_rewritten (D : dict) (page : string) :
  forallb is_word_char (chars_of page) = true ->
  (forall k a, In (k, a) D -> String.length k <> String.length page) ->
  text_replacer D [page] = ([page], []).
Proof.
  intros Hw Hlen. unfold text_replacer.
  apply replace_pages_clean. constructor; [| constructor].
  destruct (chars_of page) as [| c s] eqn:Es; [reflexivity |].
  cbn [forallb] in Hw. apply andb_prop in Hw as [Hc Hs].
  cbn [no_match_in]. rewrite (no_match_inside_word D s c Hc Hs).
  assert (Hnone : best_match D None (c :: s) = None);
    [| rewrite Hnone; reflexivity].
  apply best_match_None. intros k a Hin.
  destruct (matches_at None (chars_of k) (c :: s)) eqn:Hm; [| reflexivity].
  exfalso. apply matches_at_true in Hm as (_ & _ & Hp & Ha).
  pose proof (prefix_ci_length _ _ Hp) as Hle.
  apply (Hlen k a Hin).
  rewrite <- !chars_of_length, Es.
  destruct (Nat.eq_dec (List.length (chars_of k)) (List.length (c :: s)))
    as [E | N]; [exact E |].
  exfalso.
  assert (Hlt : (List.length (chars_of k) < List.length (c :: s))%nat)
    by lia.
  pose proof (boundary_after_inside (c :: s) [] _ Hlt) as Hin'.
  rewrite app_nil_r in Hin'. cbn [forallb] in Hin'.
  rewrite Hc, Hs in Hin'. specialize (Hin' eq_refl). congruence.
Qed.

(** C2: substitution happens on whole-word boundaries only.  For every
    dictionary and every document, each page written is the page read in
    which stretches of text equal to a fullForm up to case, with no word
    character just before and none just after, are replaced by the
    abbreviation, everything else being copied, and the counts of the
    usage record add up to the number of these replacements; a page that
    is one word is left as it is, with nothing counted, unless a fullForm
    has its length.  So "category" is returned unchanged with an empty
    usage record, and "the cat sat" becomes "the C sat" with "cat"
    counted once. *)
Theorem C2_whole_word_boundary :
  (forall (D : dict) (P : list string),
      exists n : nat,
        document_rewrite D P (fst (text_replacer D P)) n
        /\ total_replacements (snd (text_replacer D P)) = Z.of_nat n)
  /\ (forall (D : dict) (page : string),
         forallb is_word_char (chars_of page) = true ->
         (forall k a, In (k, a) D -> String.length k <> String.length page) ->
         text_replacer D [page] = ([page], []))
  /\ text_replacer [("cat", "C")]%string ["category"%string]
     = (["category"%string], [])
  /\ text_replacer [("cat", "C")]%string ["the cat sat"%string]
     = (["the C sat"%string],
        [("cat"%string, {| abbr := "C"; count := 1 |})]).
Proof.
  split.
  { intros D P. destruct (replace_pages_rewrite D P []) as (n & Hdoc & Htot).
    exists n. split; [exact Hdoc | exact Htot]. }
  split; [exact word_not_rewritten |].
  split; vm_compute; reflexivity.
Qed.

(* ================================================================== *)
(** * Part III: further properties of the script *)
(* ================================================================== *)

(** ** The output path *)

Lemma starts_with_pdf_app (c : ascii) (pre rest : chars) :
  starts_with (chars_of ".pdf") (c :: pre ++ chars_of ".pdf" ++ rest)
  = starts_with (chars_of ".pdf") (c :: pre).
Proof.
  destruct pre as [| x [| y [| z pre]]]; cbn;
    rewrite ?andb_false_r; reflexivity.
Qed.

Lemma starts_with_pdf_length (c : ascii) (pre : chars) :
  starts_with (chars_of ".pdf") (c :: pre) = true ->
  (3 <= List.length pre)%nat.
Proof.
  destruct pre as [| x [| y [| z pre]]]; cbn;
    rewrite ?andb_false_r; try discriminate.
  intros _. lia.
Qed.

(** The last [".pdf"] of a path is always an occurrence that is
    replaced. *)
Lemma replace_chars_pdf_suffix (new : chars) (n : nat) :
  forall pre : chars,
    (List.length pre <= n)%nat ->
    replace_chars (chars_of ".pdf") new 0 (pre ++ chars_of ".pdf")
    = replace_chars (chars_of ".pdf") new 0 pre ++ new.
Proof.
  induction n as [| n IH]; intros pre Hn.
  { destruct pre; [| simpl in Hn; lia]. cbn. rewrite app_nil_r. reflexivity. }
  destruct pre as [| c pre].
  { cbn. rewrite app_nil_r. reflexivity. }
  simpl in Hn. cbn [app]. cbn [replace_chars].
  pose proof (starts_with_pdf_app c pre []) as Hsw.
  rewrite app_nil_r in Hsw. rewrite Hsw.
  destruct (starts_with (chars_of ".pdf") (c :: pre)) eqn:E.
  - apply starts_with_pdf_length in E.
    rewrite !(replace_chars_skip _ _ (List.length (chars_of ".pdf") - 1)).
    change (List.length (chars_of ".pdf") - 1)%nat with 3%nat.
    rewrite skipn_app.
    replace (3 - List.length pre)%nat with 0%nat by lia.
    cbn [skipn]. rewrite IH by (rewrite length_skipn; lia).
    rewrite app_assoc. reflexivity.
  - rewrite IH by lia. reflexivity.
Qed.

(** X1: the output path is never the input path, so the rewriter cannot
    overwrite the uploaded file. *)
Theorem output_path_never_input (tmp_stem : string) :
  output_path_of (tmp_stem ++ ".pdf") <> (tmp_stem ++ ".pdf")%string.
Proof. exact (output_path_differs tmp_stem). Qed.

(** X2: the extension always receives the marker: the output path is the
    stem, rewritten by the same replacement, followed by
    ["_minimized.pdf"]. *)
Theorem output_path_ends_with_marker (tmp_stem : string) :
  output_path_of (tmp_stem ++ ".pdf")
  = (replace tmp_stem ".pdf" "_minimized.pdf" ++ "_minimized.pdf")%string.
Proof.
  unfold output_path_of, replace.
  rewrite chars_of_append.
  rewrite (replace_chars_pdf_suffix _ (List.length (chars_of tmp_stem)))
    by lia.
  rewrite str_of_app, str_of_chars_of. reflexivity.
Qed.

(** X3: for a temporary name whose directory and name hold no dot, the
    output path is that name with ["_minimized"] before the extension. *)
Theorem output_path_of_ordinary_name (tmp_stem : string) :
  Forall (fun c => c <> "."%char) (chars_of tmp_stem) ->
  output_path_of (tmp_stem ++ ".pdf") = (tmp_stem ++ "_minimized.pdf")%string.
Proof. exact (output_path_of_plain tmp_stem). Qed.

Lemma output_path_of_ordinary_name_witness :
  output_path_of ("/tmp/tmpab12cd34" ++ ".pdf")
  = ("/tmp/tmpab12cd34" ++ "_minimized.pdf")%string.
Proof.
  apply (output_path_of_ordinary_name "/tmp/tmpab12cd34").
  repeat constructor; discriminate.
Defined.

(** ** What a run shows *)

Lemma in_rendered_metrics `{Imports} (x : widget) (pages : list string)
  (D : dict) (used : usage) (o m : Z) (percent : Q) (out : string) :
  In x (metrics o m percent used) ->
  In x (rendered pages D used o m percent out).
Proof.
  intros Hin. unfold rendered.
  apply in_or_app. right. apply in_or_app. right.
  apply in_or_app. left. exact Hin.
Qed.

(** X4: on a run that ends normally, the size metrics measure the
    uploaded bytes and the bytes the rewriter wrote: the rewriter ran in
    between but wrote to another path, and the reduction shown is
    computed from these two sizes. *)
Theorem size_metrics_of_a_run `{Imports}
  (uploaded : string) (include_reference_pages : bool) (tmp_stem : string)
  (w w' : world) :
  run uploaded include_reference_pages tmp_stem w = (w', Ok tt) ->
  exists (out : string) (percent : Q),
    files w' !! output_path_of (tmp_stem ++ ".pdf") = Some out
    /\ files w' !! (tmp_stem ++ ".pdf")%string = Some uploaded
    /\ percent_reduction (len uploaded) (len out) = Ok percent
    /\ In (St_metric "Original Size (KB)" (Fixed2 (kb (len uploaded))))
          (page w')
    /\ In (St_metric "Minimized Size (KB)" (Fixed2 (kb (len out))))
          (page w')
    /\ In (St_metric "Reduction (%)" (Fixed2Percent percent)) (page w').
Proof.
  intros Hrun. apply run_Ok in Hrun.
  destruct Hrun as (pages & config & D & out & used & percent
                    & _ & _ & _ & _ & Hp & Hfiles & Hpage).
  exists out, percent. rewrite Hfiles, Hpage.
  split; [apply lookup_insert_eq |].
  split.
  { rewrite lookup_insert_ne by apply output_path_differs.
    apply lookup_insert_eq. }
  split; [exact Hp |].
  repeat split; apply in_or_app; right; apply in_rendered_metrics;
    unfold metrics; simpl; tauto.
Qed.

Lemma size_metrics_of_a_run_witness :
  let I := example_imports [] in
  let w' := fst (run (H := I) "the cat sat" false "/tmp/tmpab12cd34"
                     example_world) in
  exists (out : string) (percent : Q),
    files w' !! output_path_of ("/tmp/tmpab12cd34" ++ ".pdf") = Some out
    /\ files w' !! ("/tmp/tmpab12cd34" ++ ".pdf")%string
       = Some "the cat sat"%string
    /\ percent_reduction (len "the cat sat") (len out) = Ok percent
    /\ In (St_metric "Original Size (KB)" (Fixed2 (kb (len "the cat sat"))))
          (page w')
    /\ In (St_metric "Minimized Size (KB)" (Fixed2 (kb (len out))))
          (page w')
    /\ In (St_metric "Reduction (%)" (Fixed2Percent percent)) (page w').
Proof.
  intros I w'.
  apply (size_metrics_of_a_run (H := I) "the cat sat" false
           "/tmp/tmpab12cd34" example_world w').
  vm_compute. reflexivity.
Defined.

(** X5: on a run that ends normally, the page ends with the download
    button, and what the button offers is the content of the file at the
    output path, under the name [minimized_output.pdf] and the type
    [application/pdf]. *)
Theorem download_offers_output_file `{Imports}
  (uploaded : string) (include_reference_pages : bool) (tmp_stem : string)
  (w w' : world) :
  run uploaded include_reference_pages tmp_stem w = (w', Ok tt) ->
  exists (out : string) (before : list widget),
    files w' !! output_path_of (tmp_stem ++ ".pdf") = Some out
    /\ page w'
       = before ++ [ St_download_button "Download Minimized PDF" out
                       "minimized_output.pdf" "application/pdf" ].
Proof. apply run_offers_download. Qed.

Lemma download_offers_output_file_witness :
  let I := example_imports [] in
  let w' := fst (run (H := I) "the cat sat" false "/tmp/tmpab12cd34"
                     example_world) in
  exists (out : string) (before : list widget),
    files w' !! output_path_of ("/tmp/tmpab12cd34" ++ ".pdf") = Some out
    /\ page w'
       = before ++ [ St_download_button "Download Minimized PDF" out
                       "minimized_output.pdf" "application/pdf" ].
Proof.
  intros I w'.
  apply (download_offers_output_file (H := I) "the cat sat" false
           "/tmp/tmpab12cd34" example_world w').
  vm_compute. reflexivity.
Defined.

(** The page of a run that raises. *)
Lemma run_Raise `{Imports} (uploaded : string) (toggle : bool) (stem : string)
  (w w' : world) (e : exn) :
  run uploaded toggle stem w = (w', Raise e) ->
  page w' = page w
  \/ exists pages, extract_pages uploaded = Ok pages
                   /\ page w' = page w ++ summary_section pages.
Proof.
  intros Hrun.
  pose proof (output_path_differs stem) as Hne.
  set (input := (stem ++ ".pdf")%string) in *.
  set (output := output_path_of input) in *.
  unfold run, named_temporary_file in Hrun.
  unfold bind at 1 in Hrun. unfold bind at 1 in Hrun.
  cbn [write_file ret] in Hrun. fold input output in Hrun.
  unfold extract_text_from_pdf, load_abbreviations, abbreviate_pdf in Hrun.
  run_steps Hrun.
  destruct (extract_pages uploaded) as [pages | e0] eqn:Hx.
  2:{ injection Hrun as <- _. left. reflexivity. }
  right. exists pages. split; [reflexivity |].
  run_steps Hrun.
  destruct (<[input := uploaded]> (files w)
            !! "config/abbreviations.json"%string) as [config |] eqn:Hc.
  2:{ injection Hrun as <- _. reflexivity. }
  run_steps Hrun.
  destruct (parse_abbreviations config) as [D | e0] eqn:Hd.
  2:{ injection Hrun as <- _. reflexivity. }
  run_steps Hrun.
  destruct (render_pdf uploaded D toggle) as [[out used] | e0] eqn:Hr.
  2:{ injection Hrun as <- _. reflexivity. }
  run_steps Hrun.
  rewrite lookup_insert_ne in Hrun by exact Hne.
  run_steps Hrun.
  destruct (percent_reduction (len uploaded) (len out)) as [percent | e0] eqn:Hp.
  2:{ injection Hrun as <- _. reflexivity. }
  run_steps Hrun. discriminate.
Qed.

Lemma download_buttons_app (l1 l2 : list widget) :
  download_buttons (l1 ++ l2)
  = (download_buttons l1 ++ download_buttons l2)%list.
Proof. unfold download_buttons. apply List.filter_app. Qed.

(** X6: a run that raises has rendered nothing of the report: the page
    has gained nothing, or only the two elements of the summary; in
    particular it has no new download button. *)
Theorem failed_run_shows_no_report `{Imports}
  (uploaded : string) (include_reference_pages : bool) (tmp_stem : string)
  (w w' : world) (e : exn) :
  run uploaded include_reference_pages tmp_stem w = (w', Raise e) ->
  (page w' = page w
   \/ exists pages, extract_pages uploaded = Ok pages
                    /\ page w' = page w ++ summary_section pages)
  /\ download_buttons (page w') = download_buttons (page w).
Proof.
  intros Hrun. pose proof (run_Raise _ _ _ _ _ _ Hrun) as Hpage.
  split; [exact Hpage |].
  destruct Hpage as [-> | [pages [_ ->]]]; [reflexivity |].
  rewrite download_buttons_app. cbn. apply app_nil_r.
Qed.

Lemma failed_run_shows_no_report_witness :
  let w' := fst (run (H := failing_imports) "the cat sat" false
                     "/tmp/tmpab12cd34" example_world) in
  (page w' = page example_world
   \/ exists pages,
        extract_pages (Imports := failing_imports) "the cat sat" = Ok pages
        /\ page w' = page example_world
                     ++ summary_section (H := failing_imports) pages)
  /\ download_buttons (page w') = download_buttons (page example_world).
Proof.
  intros w'.
  apply (failed_run_shows_no_report (H := failing_imports) "the cat sat"
           false "/tmp/tmpab12cd34" example_world w'
           (ImportedError "extractor")).
  vm_compute. reflexivity.
Defined.

(** ** The chart and the total *)

Lemma strongly_sorted_app {A : Type} (R : A -> A -> Prop) (l1 l2 : list A) :
  StronglySorted R (l1 ++ l2) ->
  forall x y, In x l1 -> In y l2 -> R x y.
Proof.
  induction l1 as [| a l1 IH]; intros Hs x y Hx Hy; [destruct Hx |].
  cbn [app] in Hs. apply StronglySorted_inv in Hs as [Hs Ha].
  destruct Hx as [<- | Hx].
  - rewrite List.Forall_forall in Ha. apply Ha. apply in_or_app. right.
    exact Hy.
  - exact (IH Hs x y Hx Hy).
Qed.

(** What is kept of a sorted list outranks what is cut. *)
Lemma sorted_desc_firstn_top {A : Type} (key : A -> Z) (l : list A) (n : nat)
  (x y : A) :
  In x (firstn n (sorted_desc key l)) ->
  In y (skipn n (sorted_desc key l)) ->
  key y <= key x.
Proof.
  intros Hx Hy.
  pose proof (sorted_desc_sorted key l) as Hs.
  rewrite <- (firstn_skipn n (sorted_desc key l)) in Hs.
  exact (strongly_sorted_app (desc key) _ _ Hs x y Hx Hy).
Qed.

(** X7: the chart shows ten bars, or all entries when there are fewer,
    and no entry left out of the chart has a higher count than an entry
    shown. *)
Theorem chart_shows_highest_counts (used_abbr : usage) :
  List.length (sorted_abbr used_abbr)
  = Nat.min 10 (List.length used_abbr)
  /\ exists rest : usage,
       Permutation used_abbr (sorted_abbr used_abbr ++ rest)
       /\ forall x y, In x (sorted_abbr used_abbr) -> In y rest ->
                      count (snd y) <= count (snd x).
Proof.
  set (key := fun x : string * usage_entry => count (snd x)).
  unfold sorted_abbr. fold key. split.
  - rewrite length_firstn.
    rewrite <- (Permutation_length (sorted_desc_perm key used_abbr)).
    reflexivity.
  - exists (skipn 10 (sorted_desc key used_abbr)). split.
    + rewrite firstn_skipn. apply sorted_desc_perm.
    + intros x y Hx Hy.
      exact (sorted_desc_firstn_top key used_abbr 10 x y Hx Hy).
Qed.

Lemma sum_app (l1 l2 : list Z) : sum (l1 ++ l2) = sum l1 + sum l2.
Proof.
  unfold sum. induction l1 as [| a l1 IH]; cbn [app fold_right]; lia.
Qed.




(** ** The size metric between its bounds *)

(** X9: when the minimized file is no larger than a non-empty original,
    the reduction lies between 0 and 100; it is 100 only for an empty
    minimized file and 0 only for equal sizes. *)
Theorem percent_reduction_bounds (o m : Z) :
  0 < o -> 0 <= m <= o ->
  exists q, percent_reduction o m = Ok q
            /\ (0 <= q)%Q /\ (q <= 100)%Q
            /\ ((q == 100)%Q <-> m = 0)
            /\ ((q == 0)%Q <-> m = o).
Proof.
  intros Ho Hm.
  exists (inject_Z (o - m) / inject_Z o * 100)%Q.
  rewrite percent_reduction_value.
  destruct (Z.eqb_spec o 0) as [E | _]; [lia |].
  split; [reflexivity |].
  destruct o as [| p | p]; try lia.
  unfold Qle, Qeq, Qdiv, Qmult, Qinv, inject_Z; simpl.
  repeat split; intros; nia.
Qed.

Lemma percent_reduction_bounds_witness :
  exists q, percent_reduction 1000 600 = Ok q
            /\ (0 <= q)%Q /\ (q <= 100)%Q
            /\ ((q == 100)%Q <-> 600 = 0)
            /\ ((q == 0)%Q <-> 600 = 1000).
Proof. apply (percent_reduction_bounds 1000 600); lia. Defined.

(** X10: for a given original size the reduction does not grow with the
    minimized size. *)
Theorem percent_reduction_monotone (o m1 m2 : Z) :
  0 < o -> m1 <= m2 ->
  exists q1 q2, percent_reduction o m1 = Ok q1
                /\ percent_reduction o m2 = Ok q2
                /\ (q2 <= q1)%Q.
Proof.
  intros Ho Hm.
  exists (inject_Z (o - m1) / inject_Z o * 100)%Q,
         (inject_Z (o - m2) / inject_Z o * 100)%Q.
  rewrite !percent_reduction_value.
  destruct (Z.eqb_spec o 0) as [E | _]; [lia |].
  split; [reflexivity |]. split; [reflexivity |].
  destruct o as [| p | p]; try lia.
  unfold Qle, Qdiv, Qmult, Qinv, inject_Z; simpl. nia.
Qed.

Lemma percent_reduction_monotone_witness :
  exists q1 q2, percent_reduction 1000 600 = Ok q1
                /\ percent_reduction 1000 800 = Ok q2
                /\ (q2 <= q1)%Q.
Proof. apply (percent_reduction_monotone 1000 600 800); lia. Defined.

(** ** Words *)

Lemma split_chars_clean (s cur : chars) :
  forallb (fun c => negb (is_space c)) cur = true ->
  Forall (fun w => w <> [] /\ forallb (fun c => negb (is_space c)) w = true)
         (split_chars cur s)
  /\ concat (split_chars cur s)
     = rev cur ++ List.filter (fun c => negb (is_space c)) s.
Proof.
  assert (Hrev : forall cur : chars,
             forallb (fun c => negb (is_space c)) cur = true ->
             cur <> [] ->
             rev cur <> []
             /\ forallb (fun c => negb (is_space c)) (rev cur) = true).
  { intros l Hl Hne. split.
    - intros E. apply (f_equal (@rev ascii)) in E.
      rewrite rev_involutive in E. exact (Hne E).
    - rewrite List.forallb_forall in *. intros x Hx. apply Hl.
      apply in_rev. exact Hx. }
  revert cur. induction s as [| c s IH]; intros cur Hcur.
  - cbn [split_chars List.filter]. rewrite app_nil_r.
    destruct cur as [| d cur]; [split; [constructor | reflexivity] |].
    split; [| cbn [concat]; apply app_nil_r].
    constructor; [| constructor]. apply Hrev; [exact Hcur | discriminate].
  - cbn [split_chars List.filter]. destruct (is_space c) eqn:Ec; cbn [negb].
    + destruct (IH [] eq_refl) as [Hall Hcat]. cbn [rev app] in Hcat.
      destruct cur as [| d cur].
      * split; [exact Hall | exact Hcat].
      * split.
        -- constructor; [| exact Hall].
           apply Hrev; [exact Hcur | discriminate].
        -- cbn [concat]. rewrite Hcat. reflexivity.
    + destruct (IH (c :: cur)) as [Hall Hcat].
      { cbn [forallb]. rewrite Ec, Hcur. reflexivity. }
      split; [exact Hall |]. rewrite Hcat. cbn [rev].
      rewrite <- app_assoc. reflexivity.
Qed.

(** X11: the words [p.split()] returns are not empty and hold no
    whitespace, and put together they are the page without its
    whitespace: splitting loses nothing else. *)
Theorem split_keeps_all_but_whitespace (p : string) :
  Forall (fun w => w <> ""%string
                   /\ forallb (fun c => negb (is_space c)) (chars_of w) = true)
         (split p)
  /\ concat (map chars_of (split p))
     = List.filter (fun c => negb (is_space c)) (chars_of p).
Proof.
  unfold split.
  destruct (split_chars_clean (chars_of p) [] eq_refl) as [Hall Hcat].
  split.
  - apply List.Forall_map. eapply List.Forall_impl; [| exact Hall].
    intros w [Hne Hw]. rewrite chars_of_str_of. split; [| exact Hw].
    intros E. apply (f_equal chars_of) in E.
    rewrite chars_of_str_of in E. exact (Hne E).
  - rewrite map_map.
    rewrite (map_ext _ (fun l => l) (fun l => chars_of_str_of l)), map_id.
    exact Hcat.
Qed.

Lemma word_starts_app_space (a b : chars) (sp : ascii) (in_word : bool) :
  is_space sp = true ->
  word_starts in_word (a ++ sp :: b)
  = (word_starts in_word a + word_starts false b)%nat.
Proof.
  intros Hsp. revert in_word.
  induction a as [| c a IH]; intros in_word.
  - cbn [app word_starts]. rewrite Hsp. reflexivity.
  - cbn [app word_starts]. destruct (is_space c); rewrite IH; lia.
Qed.

(** X12: the text the summary is made from, [" ".join(pages)], has as
    many words as the pages counted one by one: joining with a space
    neither merges nor adds words. *)
Theorem joined_text_word_count (pages : list string) :
  whitespace_words (join " " pages) = words pages.
Proof.
  rewrite words_whitespace_words. unfold whitespace_words.
  induction pages as [| p ps IH]; [reflexivity |].
  destruct ps as [| p' ps].
  - cbn [join map sum fold_right]. lia.
  - change (join " " (p :: p' :: ps))
      with (p ++ " " ++ join " " (p' :: ps))%string.
    rewrite chars_of_append.
    change (chars_of (" " ++ join " " (p' :: ps)))
      with (" "%char :: chars_of (join " " (p' :: ps))).
    rewrite word_starts_app_space by reflexivity.
    rewrite Nat2Z.inj_add, IH.
    cbn [map sum fold_right]. unfold whitespace_words. reflexivity.
Qed.

(** ** The summarizer: sentences *)

Lemma ends_with_mark_rev (m : ascii) (cur : chars) :
  Summarizer.ends_sentence m = true -> ends_with_mark (rev (m :: cur)) = true.
Proof.
  intros Hm. unfold ends_with_mark. rewrite rev_involutive. exact Hm.
Qed.

Lemma begins_with_blank_app (l r : chars) :
  l <> [] -> begins_with_blank (l ++ r) = begins_with_blank l.
Proof. destruct l; [contradiction | reflexivity]. Qed.

Lemma begins_with_blank_snoc (cur : chars) (c : ascii) :
  Summarizer.is_blank c = false ->
  (cur <> [] -> begins_with_blank (rev cur) = false) ->
  begins_with_blank (rev (c :: cur)) = false.
Proof.
  intros Hc Hcur. cbn [rev]. destruct cur as [| d cur]; [exact Hc |].
  rewrite begins_with_blank_app.
  - apply Hcur. discriminate.
  - intros E. apply (f_equal (@List.length ascii)) in E.
    rewrite length_rev in E. discriminate.
Qed.

(** The first piece read does not begin with a space when the piece in
    hand does not. *)
Lemma split_sentences_head (s : chars) :
  forall (st : Summarizer.place) (cur : chars),
    (st = Summarizer.InSeparator -> cur = []) ->
    (cur <> [] -> begins_with_blank (rev cur) = false) ->
    (cur = [] -> st = Summarizer.InSeparator
                 \/ begins_with_blank s = false) ->
    exists p ps, Summarizer.split_sentences st cur s = p :: ps
                 /\ begins_with_blank p = false.
Proof.
  induction s as [| c s IH]; intros st cur Hsep Hcur Hnil.
  - exists (rev cur), []. split; [reflexivity |].
    destruct cur; [reflexivity | apply Hcur; discriminate].
  - cbn [Summarizer.split_sentences].
    destruct (Summarizer.is_blank c) eqn:Eb.
    + destruct st.
      * eexists _, _. split; [reflexivity |].
        destruct cur as [| d cur]; [reflexivity | apply Hcur; discriminate].
      * apply IH; [exact Hsep | exact Hcur | intros _; left; reflexivity].
      * destruct cur as [| d cur].
        { destruct (Hnil eq_refl) as [E | E]; [discriminate |].
          cbn in E. congruence. }
        apply IH; [discriminate | | discriminate].
        intros _. change (rev (c :: d :: cur)) with (rev (d :: cur) ++ [c]).
        rewrite begins_with_blank_app.
        -- apply Hcur. discriminate.
        -- intros E. apply (f_equal (@List.length ascii)) in E.
           rewrite length_rev in E. discriminate.
    + destruct (Summarizer.ends_sentence c);
        (apply IH; [discriminate | | discriminate]);
        intros _; apply begins_with_blank_snoc; assumption.
Qed.

Lemma split_sentences_shape (s : chars) :
  forall (st : Summarizer.place) (cur : chars),
    (st = Summarizer.AfterMark ->
     exists m cur', cur = m :: cur' /\ Summarizer.ends_sentence m = true) ->
    exists firsts final,
      Summarizer.split_sentences st cur s = firsts ++ [final]
      /\ forallb ends_with_mark firsts = true
      /\ forallb (fun p => negb (begins_with_blank p))
                 (tl (firsts ++ [final])) = true.
Proof.
  induction s as [| c s IH]; intros st cur Hmark.
  - exists [], (rev cur). cbn. repeat split.
  - cbn [Summarizer.split_sentences].
    destruct (Summarizer.is_blank c) eqn:Eb.
    + destruct st.
      * destruct (Hmark eq_refl) as (m & cur' & -> & Hm).
        destruct (IH Summarizer.InSeparator [])
          as (firsts & final & E & H1 & H2); [discriminate |].
        destruct (split_sentences_head s Summarizer.InSeparator [])
          as (p & ps & Ep & Hp);
          [reflexivity | contradiction | intros _; left; reflexivity |].
        exists (rev (m :: cur') :: firsts), final.
        rewrite E. split; [reflexivity |].
        split; [cbn [forallb]; rewrite (ends_with_mark_rev m cur' Hm), H1;
                reflexivity |].
        cbn [app tl]. rewrite <- E, Ep in *. cbn [tl forallb] in *.
        rewrite Hp, H2. reflexivity.
      * apply IH. discriminate.
      * apply IH. discriminate.
    + destruct (Summarizer.ends_sentence c) eqn:Em.
      * apply IH. intros _. exists c, cur. split; [reflexivity | exact Em].
      * apply IH. discriminate.
Qed.

Lemma forallb_pointwise {A : Type} (f g : A -> bool) (l : list A) :
  (forall x, f x = g x) -> forallb f l = forallb g l.
Proof.
  intros E. induction l as [| a l IH]; [reflexivity |].
  cbn. rewrite E, IH. reflexivity.
Qed.

(** X13: the sentences of a text: there is always a last one, every
    sentence before it ends with one of [.!?], and no sentence after the
    first begins with a space. *)
Theorem sentences_end_with_marks (text : string) :
  exists firsts final,
    Summarizer.sentences_of text = firsts ++ [final]
    /\ forallb (fun s => ends_with_mark (chars_of s)) firsts = true
    /\ forallb (fun s => negb (begins_with_blank (chars_of s)))
               (tl (Summarizer.sentences_of text)) = true.
Proof.
  unfold Summarizer.sentences_of.
  destruct (split_sentences_shape (chars_of text) Summarizer.Elsewhere [])
    as (firsts & final & E & H1 & H2); [discriminate |].
  exists (map str_of firsts), (str_of final).
  rewrite E. split; [rewrite map_app; reflexivity |].
  split.
  - rewrite forallb_map, <- H1. apply forallb_pointwise.
    intros l. rewrite chars_of_str_of. reflexivity.
  - replace (tl (map str_of (firsts ++ [final])))
      with (map str_of (tl (firsts ++ [final])))
      by (destruct (firsts ++ [final]); reflexivity).
    rewrite forallb_map, <- H2. apply forallb_pointwise.
    intros l. rewrite chars_of_str_of. reflexivity.
Qed.

Lemma split_sentences_not_nil (s : chars) (st : Summarizer.place)
  (cur : chars) :
  Summarizer.split_sentences st cur s <> [].
Proof.
  revert st cur. induction s as [| c s IH]; intros st cur; [discriminate |].
  cbn [Summarizer.split_sentences].
  destruct (Summarizer.is_blank c);
    [destruct st | destruct (Summarizer.ends_sentence c)];
    try apply IH. discriminate.
Qed.

Lemma join_chars_cons (sep p : chars) (ps : list chars) :
  ps <> [] -> join_chars sep (p :: ps) = p ++ sep ++ join_chars sep ps.
Proof. destruct ps; [contradiction | reflexivity]. Qed.

Lemma join_str_of (sep : chars) (l : list chars) :
  join (str_of sep) (map str_of l) = str_of (join_chars sep l).
Proof.
  induction l as [| p ps IH]; [reflexivity |].
  destruct ps as [| p' ps]; [reflexivity |].
  change (join (str_of sep) (map str_of (p :: p' :: ps)))
    with (str_of p ++ str_of sep ++ join (str_of sep) (map str_of (p' :: ps)))%string.
  rewrite IH, <- !str_of_app. reflexivity.
Qed.

Lemma single_spaced_tail (c : ascii) (s : chars) :
  single_spaced (c :: s) = true ->
  single_spaced s = true
  /\ (Summarizer.is_blank c = true -> begins_with_blank s = false).
Proof.
  destruct s as [| d s]; [intros _; split; [reflexivity | reflexivity] |].
  cbn [single_spaced begins_with_blank]. intros H.
  apply andb_prop in H as [Hcd Hs]. split; [exact Hs |].
  intros Hc. rewrite Hc in Hcd. cbn in Hcd.
  apply negb_true_iff in Hcd. exact Hcd.
Qed.

Lemma split_sentences_join (s : chars) :
  forall (st : Summarizer.place) (cur : chars),
    single_spaced s = true ->
    (st = Summarizer.InSeparator -> cur = [] /\ begins_with_blank s = false) ->
    join_chars [" "%char] (Summarizer.split_sentences st cur s) = rev cur ++ s.
Proof.
  induction s as [| c s IH]; intros st cur Hss Hsep.
  - cbn. rewrite app_nil_r. reflexivity.
  - destruct (single_spaced_tail c s Hss) as [Hs Hnext].
    cbn [Summarizer.split_sentences].
    destruct (Summarizer.is_blank c) eqn:Eb.
    + destruct st.
      * rewrite join_chars_cons by apply split_sentences_not_nil.
        rewrite IH; [| exact Hs | intros _; split; [reflexivity | auto]].
        unfold Summarizer.is_blank in Eb. apply Ascii.eqb_eq in Eb. subst c.
        reflexivity.
      * destruct (Hsep eq_refl) as [_ Hb]. cbn in Hb. congruence.
      * rewrite IH; [| exact Hs | discriminate].
        cbn [rev]. rewrite <- app_assoc. reflexivity.
    + destruct (Summarizer.ends_sentence c);
        (rewrite IH; [| exact Hs | discriminate]);
        cbn [rev]; rewrite <- app_assoc; reflexivity.
Qed.

(** X14: splitting a text into sentences and joining them with single
    spaces gives the text back, when no two spaces follow each other in
    it. *)
Theorem sentences_join_back (text : string) :
  single_spaced (chars_of text) = true ->
  join " " (Summarizer.sentences_of text) = text.
Proof.
  intros Hss. unfold Summarizer.sentences_of.
  change " "%string with (str_of [" "%char]).
  rewrite join_str_of, split_sentences_join by (assumption || discriminate).
  apply str_of_chars_of.
Qed.

Lemma sentences_join_back_witness :
  join " " (Summarizer.sentences_of "It rains. Take a coat! Why not?")
  = "It rains. Take a coat! Why not?"%string.
Proof.
  apply (sentences_join_back "It rains. Take a coat! Why not?").
  vm_compute. reflexivity.
Defined.

(** ** The summarizer: words *)

Lemma findall_w_app_other (a b : chars) (x : ascii) (cur : chars) :
  Summarizer.is_w x = false ->
  Summarizer.findall_w cur (a ++ x :: b)
  = Summarizer.findall_w cur a ++ Summarizer.findall_w [] b.
Proof.
  intros Hx. revert cur. induction a as [| c a IH]; intros cur.
  - cbn [app Summarizer.findall_w]. rewrite Hx. destruct cur; reflexivity.
  - cbn [app Summarizer.findall_w]. destruct (Summarizer.is_w c).
    + apply IH.
    + destruct cur; rewrite IH; reflexivity.
Qed.

Lemma is_blank_eq (c : ascii) : Summarizer.is_blank c = true -> c = " "%char.
Proof. unfold Summarizer.is_blank. apply Ascii.eqb_eq. Qed.

Lemma split_sentences_words (s : chars) :
  forall (st : Summarizer.place) (cur : chars),
    (st = Summarizer.InSeparator -> cur = []) ->
    concat (map (fun p => Summarizer.findall_w [] (Summarizer.lower p))
                (Summarizer.split_sentences st cur s))
    = Summarizer.findall_w [] (Summarizer.lower (rev cur ++ s)).
Proof.
  induction s as [| c s IH]; intros st cur Hsep.
  - cbn. rewrite !app_nil_r. reflexivity.
  - assert (Hpush : forall st',
               st' <> Summarizer.InSeparator ->
               concat (map (fun p => Summarizer.findall_w []
                                       (Summarizer.lower p))
                           (Summarizer.split_sentences st' (c :: cur) s))
               = Summarizer.findall_w []
                   (Summarizer.lower (rev cur ++ c :: s))).
    { intros st' Hst'. rewrite IH by (intros E; contradiction).
      cbn [rev]. rewrite <- app_assoc. reflexivity. }
    cbn [Summarizer.split_sentences].
    destruct (Summarizer.is_blank c) eqn:Eb.
    + destruct st.
      * cbn [map concat]. rewrite IH by reflexivity.
        apply is_blank_eq in Eb. subst c.
        unfold Summarizer.lower. cbn [rev app]. rewrite map_app.
        cbn [map]. rewrite findall_w_app_other by reflexivity. reflexivity.
      * rewrite IH by exact Hsep. rewrite (Hsep eq_refl).
        apply is_blank_eq in Eb. subst c. reflexivity.
      * apply Hpush. discriminate.
    + destruct (Summarizer.ends_sentence c); apply Hpush; discriminate.
Qed.

(** X15: the words of the sentences, taken in order, are the words of
    the text: cutting the text into sentences cuts no word and loses
    none. *)
Theorem sentence_words_are_text_words (text : string) :
  concat (map Summarizer.words_of (Summarizer.sentences_of text))
  = Summarizer.words_of text.
Proof.
  pose proof (split_sentences_words (chars_of text) Summarizer.Elsewhere []
                ltac:(discriminate)) as Hw.
  cbn [rev app] in Hw.
  unfold Summarizer.words_of at 2. rewrite <- Hw.
  unfold Summarizer.sentences_of.
  rewrite map_map, concat_map. f_equal. rewrite map_map.
  apply map_ext. intros p. unfold Summarizer.words_of.
  rewrite chars_of_str_of. reflexivity.
Qed.

Lemma freq_positive (words : list string) (w : string) :
  In w words -> 1 <= Summarizer.freq words w.
Proof.
  assert (Hnn : forall l, 0 <= Summarizer.freq l w).
  { induction l as [| a l IH]; cbn [Summarizer.freq]; [lia |].
    destruct (String.eqb w a); lia. }
  induction words as [| a words IH]; intros Hin; [destruct Hin |].
  cbn [Summarizer.freq]. destruct (String.eqb_spec w a) as [E | N].
  - pose proof (Hnn words). lia.
  - destruct Hin as [E | Hin]; [congruence |]. specialize (IH Hin). lia.
Qed.

(** X16: a sentence of the text scores at least the number of its words,
    since each of its words is a word of the text. *)
Theorem score_at_least_word_count (text s : string) :
  In s (Summarizer.sentences_of text) ->
  Z.of_nat (List.length (Summarizer.words_of s))
  <= Summarizer.score (Summarizer.words_of text) s.
Proof.
  intros Hs. unfold Summarizer.score.
  assert (Hincl : forall w, In w (Summarizer.words_of s) ->
                            In w (Summarizer.words_of text)).
  { intros w Hw. rewrite <- sentence_words_are_text_words.
    apply in_concat. exists (Summarizer.words_of s). split; [| exact Hw].
    apply in_map. exact Hs. }
  revert Hincl. generalize (Summarizer.words_of text) as words.
  intros words. induction (Summarizer.words_of s) as [| w l IH]; intros Hincl.
  - cbn. lia.
  - cbn [map sum fold_right List.length].
    pose proof (freq_positive words w (Hincl w (or_introl eq_refl))) as Hw.
    assert (IH' : Z.of_nat (List.length l)
                  <= sum (map (Summarizer.freq words) l)).
    { apply IH. intros w' Hw'. apply Hincl. right. exact Hw'. }
    unfold sum in IH'. lia.
Qed.

Lemma score_at_least_word_count_witness :
  Z.of_nat (List.length (Summarizer.words_of "The cat sat."))
  <= Summarizer.score (Summarizer.words_of "The cat sat. The dog ran.")
                      "The cat sat.".
Proof.
  apply (score_at_least_word_count "The cat sat. The dog ran." "The cat sat.").
  vm_compute. left. reflexivity.
Defined.

(** ** The summarizer: the summary *)

Lemma replace_chars_one_gone (c : ascii) (new s : chars) :
  ~ In c new -> ~ In c (replace_chars [c] new 0 s).
Proof.
  intros Hnew. induction s as [| x s IH]; [intros [] |].
  cbn [replace_chars starts_with List.length Nat.sub].
  destruct (Ascii.eqb_spec c x) as [E | N]; cbn [andb].
  - intros Hin. apply in_app_or in Hin as [Hin | Hin]; auto.
  - intros [E | Hin]; [congruence | auto].
Qed.

Lemma replace_chars_one_absent (c : ascii) (new s : chars) :
  ~ In c s -> replace_chars [c] new 0 s = s.
Proof.
  induction s as [| x s IH]; intros Hs; [reflexivity |].
  cbn [replace_chars starts_with List.length Nat.sub].
  destruct (Ascii.eqb_spec c x) as [E | N]; cbn [andb].
  - exfalso. apply Hs. left. congruence.
  - rewrite IH; [reflexivity |]. intros Hin. apply Hs. right. exact Hin.
Qed.

Lemma split_sentences_chars (s : chars) :
  forall (st : Summarizer.place) (cur p : chars) (x : ascii),
    In p (Summarizer.split_sentences st cur s) -> In x p ->
    In x cur \/ In x s.
Proof.
  induction s as [| c s IH]; intros st cur p x Hp Hx.
  - destruct Hp as [<- | []]. left. apply in_rev. exact Hx.
  - assert (Hpush : forall st',
               In p (Summarizer.split_sentences st' (c :: cur) s) ->
               In x cur \/ In x (c :: s)).
    { intros st' Hp'. destruct (IH st' (c :: cur) p x Hp' Hx) as [[E | H] | H].
      - right. left. exact E.
      - left. exact H.
      - right. right. exact H. }
    cbn [Summarizer.split_sentences] in Hp.
    destruct (Summarizer.is_blank c);
      [destruct st | destruct (Summarizer.ends_sentence c)];
      try (exact (Hpush _ Hp)).
    + destruct Hp as [<- | Hp].
      * left. apply in_rev. exact Hx.
      * destruct (IH _ [] p x Hp Hx) as [[] | H]. right. right. exact H.
    + destruct (IH _ cur p x Hp Hx) as [H | H]; [left | right; right]; exact H.
Qed.

Lemma in_join (sep : string) (l : list string) (x : ascii) :
  In x (chars_of (join sep l)) ->
  In x (chars_of sep) \/ exists p, In p l /\ In x (chars_of p).
Proof.
  induction l as [| p ps IH]; [intros [] |].
  destruct ps as [| p' ps].
  - intros Hx. right. exists p. split; [left; reflexivity | exact Hx].
  - change (join sep (p :: p' :: ps))
      with (p ++ sep ++ join sep (p' :: ps))%string.
    rewrite !chars_of_append. intros Hx.
    apply in_app_or in Hx as [Hx | Hx].
    { right. exists p. split; [left; reflexivity | exact Hx]. }
    apply in_app_or in Hx as [Hx | Hx]; [left; exact Hx |].
    destruct (IH Hx) as [H | (q & Hq & Hxq)]; [left; exact H |].
    right. exists q. split; [right; exact Hq | exact Hxq].
Qed.

(** X17: a summary holds no newline, whatever the text and the number of
    sentences asked for. *)
Theorem summary_has_no_newline (text : string) (num_sentences : nat) :
  ~ In "010"%char
       (chars_of (Summarizer.lightweight_summarizer text num_sentences)).
Proof.
  unfold Summarizer.lightweight_summarizer.
  set (t := replace text nl " ").
  assert (Ht : ~ In "010"%char (chars_of t)).
  { unfold t, replace. rewrite chars_of_str_of.
    apply (replace_chars_one_gone "010"%char).
    intros [E | []]. discriminate. }
  destruct (List.length (Summarizer.sentences_of t) <=? num_sentences)%nat;
    [exact Ht |].
  intros Hx. apply in_join in Hx as [[E | []] | (p & Hp & Hx)];
    [discriminate |].
  apply List.filter_In in Hp as [Hp _].
  unfold Summarizer.sentences_of in Hp.
  apply in_map_iff in Hp as (q & <- & Hq).
  rewrite chars_of_str_of in Hx.
  destruct (split_sentences_chars _ _ _ _ _ Hq Hx) as [[] | H].
  exact (Ht H).
Qed.

(** X18: a text without newline that has no more sentences than asked
    for is its own summary. *)
Theorem short_text_is_its_summary (text : string) (num_sentences : nat) :
  ~ In "010"%char (chars_of text) ->
  (List.length (Summarizer.sentences_of text) <= num_sentences)%nat ->
  Summarizer.lightweight_summarizer text num_sentences = text.
Proof.
  intros Hnl Hlen. unfold Summarizer.lightweight_summarizer.
  assert (Ht : replace text nl " " = text).
  { unfold replace.
    change (chars_of nl) with ["010"%char].
    rewrite replace_chars_one_absent by exact Hnl.
    apply str_of_chars_of. }
  rewrite Ht. apply Nat.leb_le in Hlen. rewrite Hlen. reflexivity.
Qed.

Lemma short_text_is_its_summary_witness :
  Summarizer.lightweight_summarizer "It rains. Take a coat!" 6
  = "It rains. Take a coat!"%string.
Proof.
  apply (short_text_is_its_summary "It rains. Take a coat!" 6).
  - vm_compute. intuition discriminate.
  - vm_compute. lia.
Defined.

(** *** The scores and the sentences kept *)

Lemma dict_set_keys (k : string) (v : Z) (d : list (string * Z)) (k' : string) :
  In k' (map fst (Summarizer.dict_set k v d)) <-> k' = k \/ In k' (map fst d).
Proof.
  induction d as [| [k0 v0] d IH]; cbn [Summarizer.dict_set map fst In].
  - intuition.
  - destruct (String.eqb_spec k k0) as [E | N]; cbn [map fst In].
    + subst k0. intuition.
    + rewrite IH. intuition.
Qed.

Lemma dict_set_nodup (k : string) (v : Z) (d : list (string * Z)) :
  List.NoDup (map fst d) -> List.NoDup (map fst (Summarizer.dict_set k v d)).
Proof.
  induction d as [| [k0 v0] d IH]; cbn [Summarizer.dict_set map fst];
    intros Hd.
  - constructor; [intros Hin; exact Hin | constructor].
  - apply List.NoDup_cons_iff in Hd as [Hk0 Hd].
    destruct (String.eqb_spec k k0) as [E | N]; cbn [map fst].
    + constructor; assumption.
    + constructor; [| exact (IH Hd)].
      rewrite dict_set_keys. intros [E | Hin]; [congruence | contradiction].
Qed.

Lemma dict_set_values (f : string -> Z) (k : string) (d : list (string * Z)) :
  holds_values f d -> holds_values f (Summarizer.dict_set k (f k) d).
Proof.
  unfold holds_values.
  induction d as [| [k0 v0] d IH]; cbn [Summarizer.dict_set]; intros Hd k' v'.
  - intros [E | []]. congruence.
  - destruct (String.eqb_spec k k0) as [E | N].
    + intros [E' | Hin]; [| apply Hd; right; exact Hin].
      injection E' as <- <-. subst k0. reflexivity.
    + intros [E' | Hin]; [apply Hd; left; exact E' |].
      apply IH; [| exact Hin]. intros k1 v1 H1. apply Hd. right. exact H1.
Qed.

Lemma dict_get_value (f : string -> Z) (d : list (string * Z)) (k : string) :
  holds_values f d -> In k (map fst d) -> Summarizer.dict_get d k = f k.
Proof.
  unfold holds_values.
  induction d as [| [k0 v0] d IH]; intros Hd Hk; [destruct Hk |].
  cbn [Summarizer.dict_get]. destruct (String.eqb_spec k k0) as [E | N].
  - subst k0. apply Hd. left. reflexivity.
  - destruct Hk as [E | Hk]; [cbn in E; congruence |].
    apply IH; [| exact Hk]. intros k1 v1 H1. apply Hd. right. exact H1.
Qed.

Lemma scores_fold (f : string -> Z) (sentences : list string) :
  forall d : list (string * Z),
    List.NoDup (map fst d) -> holds_values f d ->
    let d' := fold_left (fun d s => Summarizer.dict_set s (f s) d)
                        sentences d in
    List.NoDup (map fst d') /\ holds_values f d'
    /\ forall k, In k (map fst d') <-> In k (map fst d) \/ In k sentences.
Proof.
  induction sentences as [| s sentences IH]; intros d Hnd Hv; cbn [fold_left].
  - split; [exact Hnd |]. split; [exact Hv |]. intros k. cbn. tauto.
  - destruct (IH (Summarizer.dict_set s (f s) d))
      as (H1 & H2 & H3);
      [apply dict_set_nodup; exact Hnd | apply dict_set_values; exact Hv |].
    split; [exact H1 |]. split; [exact H2 |].
    intros k. rewrite H3, dict_set_keys. cbn [In]. intuition.
Qed.

Lemma scores_of_facts (words sentences : list string) :
  let scores := Summarizer.scores_of words sentences in
  List.NoDup (map fst scores)
  /\ (forall k, In k (map fst scores) <-> In k sentences)
  /\ (forall k, In k sentences ->
                Summarizer.dict_get scores k = Summarizer.score words k).
Proof.
  destruct (scores_fold (Summarizer.score words) sentences [])
    as (H1 & H2 & H3); [constructor | intros k v [] |].
  split; [exact H1 |]. split.
  - intros k. rewrite H3. cbn. tauto.
  - intros k Hk. apply dict_get_value; [exact H2 |].
    apply H3. right. exact Hk.
Qed.

Lemma among_In (top : list string) (s : string) :
  Summarizer.among top s = true <-> In s top.
Proof.
  unfold Summarizer.among. rewrite List.existsb_exists. split.
  - intros (x & Hx & E). apply String.eqb_eq in E. subst x. exact Hx.
  - intros Hs. exists s. split; [exact Hs | apply String.eqb_refl].
Qed.

Lemma nodup_firstn {A : Type} (n : nat) (l : list A) :
  List.NoDup l -> List.NoDup (firstn n l).
Proof.
  intros Hl. rewrite <- (firstn_skipn n l) in Hl.
  exact (NoDup_app_remove_r _ _ Hl).
Qed.

Lemma in_firstn {A : Type} (n : nat) (l : list A) (x : A) :
  In x (firstn n l) -> In x l.
Proof.
  intros Hx. rewrite <- (firstn_skipn n l). apply in_or_app. left. exact Hx.
Qed.

(** X19: when the text has more sentences than asked for, the summary is
    made of the sentences of the text, in their order, that belong to a
    selection of at most [num_sentences] different sentences; a sentence
    that occurs several times in the text is kept each time. *)
Theorem summary_keeps_selected_sentences (text : string) (num_sentences : nat) :
  let t := replace text nl " " in
  let sentences := Summarizer.sentences_of t in
  let top := Summarizer.top_sentences
               (Summarizer.scores_of (Summarizer.words_of t) sentences)
               num_sentences in
  (num_sentences < List.length sentences)%nat ->
  Summarizer.lightweight_summarizer text num_sentences
  = join " " (List.filter (Summarizer.among top) sentences)
  /\ List.NoDup top
  /\ (List.length top <= num_sentences)%nat
  /\ (forall s, In s top -> In s sentences).
Proof.
  intros t sentences top Hlen.
  destruct (scores_of_facts (Summarizer.words_of t) sentences)
    as (Hnd & Hkeys & _).
  set (scores := Summarizer.scores_of (Summarizer.words_of t) sentences) in *.
  pose proof (sorted_desc_perm (Summarizer.dict_get scores) (map fst scores))
    as Hperm.
  split.
  - unfold Summarizer.lightweight_summarizer. fold t sentences.
    apply Nat.leb_gt in Hlen. rewrite Hlen. reflexivity.
  - split; [| split].
    + apply nodup_firstn. exact (Permutation_NoDup Hperm Hnd).
    + apply firstn_le_length.
    + intros s Hs. apply Hkeys.
      apply (Permutation_in _ (Permutation_sym Hperm)).
      exact (in_firstn _ _ _ Hs).
Qed.

Lemma summary_keeps_selected_sentences_witness :
  let t := replace "b. a. b. c" nl " " in
  let sentences := Summarizer.sentences_of t in
  let top := Summarizer.top_sentences
               (Summarizer.scores_of (Summarizer.words_of t) sentences) 1 in
  Summarizer.lightweight_summarizer "b. a. b. c" 1
  = join " " (List.filter (Summarizer.among top) sentences)
  /\ List.NoDup top
  /\ (List.length top <= 1)%nat
  /\ (forall s, In s top -> In s sentences).
Proof.
  apply (summary_keeps_selected_sentences "b. a. b. c" 1).
  vm_compute. lia.
Defined.

(** X20: the selection holds the highest scores: a sentence of the text
    that is left out scores no more than any sentence selected, the score
    of a sentence being the sum over its words of their number of
    occurrences in the text. *)
Theorem summary_selects_highest_scores (text : string) (num_sentences : nat)
  (kept dropped : string) :
  let t := replace text nl " " in
  let sentences := Summarizer.sentences_of t in
  let words := Summarizer.words_of t in
  let top := Summarizer.top_sentences (Summarizer.scores_of words sentences)
                                      num_sentences in
  In kept top -> In dropped sentences -> ~ In dropped top ->
  Summarizer.score words dropped <= Summarizer.score words kept.
Proof.
  intros t sentences words top Hkept Hdropped Hout.
  destruct (scores_of_facts words sentences) as (Hnd & Hkeys & Hget).
  set (scores := Summarizer.scores_of words sentences) in *.
  pose proof (sorted_desc_perm (Summarizer.dict_get scores) (map fst scores))
    as Hperm.
  assert (Hks : In kept sentences).
  { apply Hkeys. apply (Permutation_in _ (Permutation_sym Hperm)).
    exact (in_firstn _ _ _ Hkept). }
  rewrite <- (Hget kept Hks), <- (Hget dropped Hdropped).
  apply (sorted_desc_firstn_top (Summarizer.dict_get scores)
           (map fst scores) num_sentences kept dropped Hkept).
  apply Hkeys in Hdropped. apply (Permutation_in _ Hperm) in Hdropped.
  rewrite <- (firstn_skipn num_sentences) in Hdropped.
  apply in_app_or in Hdropped as [Hin | Hin]; [contradiction | exact Hin].
Qed.

Lemma summary_selects_highest_scores_witness :
  let t := replace "b. a. b. c" nl " " in
  Summarizer.score (Summarizer.words_of t) "a."
  <= Summarizer.score (Summarizer.words_of t) "b.".
Proof.
  apply (summary_selects_highest_scores "b. a. b. c" 1 "b." "a.").
  - vm_compute. left. reflexivity.
  - vm_compute. right. left. reflexivity.
  - vm_compute. intros [E | []]. discriminate.
Defined.
